(** * scraper.py: the post extractor and the SQLite store

    A shallow embedding of [src/scraper.py]: [parse_posts] over a
    BeautifulSoup document tree, [upsert_posts] over a table with an
    [INSERT ... ON CONFLICT(id) DO UPDATE] statement run inside a
    [with conn:] block, and [main] over a small world (connection, clock,
    standard streams). *)

From Stdlib Require Import List ZArith NArith Bool Lia String Ascii Permutation.
Import ListNotations.
Open Scope Z_scope.

(** ** Python values *)

(** A Python [str] is a sequence of Unicode code points. *)
Definition pystr := list N.

(** An ASCII literal of the source, as a [str]. *)
Definition u (s : string) : pystr := map N_of_ascii (list_ascii_of_string s).

Fixpoint str_eqb (a b : pystr) : bool :=
  match a, b with
  | [], [] => true
  | x :: a', y :: b' => N.eqb x y && str_eqb a' b'
  | _, _ => false
  end.

(** [s.startswith(prefix)] *)
Fixpoint startswith (prefix s : pystr) : bool :=
  match prefix, s with
  | [], _ => true
  | x :: p', y :: s' => N.eqb x y && startswith p' s'
  | _ :: _, [] => false
  end.

(** The exceptions that occur in the program.  [ParserRejectedMarkup]
    is what BeautifulSoup raises on markup its parser rejects (an
    [AssertionError] of [html.parser], which older versions let
    through). *)
Inductive exn : Type :=
| ValueError
| OverflowError
| OSError
| RequestException
| SqliteError
| ParserRejectedMarkup.

(** A computation that returns or raises. *)
Inductive result (A : Type) : Type :=
| Ok (a : A)
| Raise (e : exn).
Arguments Ok {A} a.
Arguments Raise {A} e.

Definition bind {A B : Type} (m : result A) (k : A -> result B) : result B :=
  match m with
  | Ok a => k a
  | Raise e => Raise e
  end.

Declare Scope result_scope.
Delimit Scope result_scope with result.
Notation "x <- m ;; k" := (bind m (fun x => k))
  (at level 61, m at next level, right associativity) : result_scope.

(** ** The document tree of BeautifulSoup *)

(** The classes of strings in a tree.  [get_text] keeps the strings whose
    class is [NavigableString] or [CData] and skips the others (comments,
    doctype declarations, the contents of script and style elements). *)
Inductive string_class : Type :=
| PlainString
| CData
| Comment
| OtherString.

Definition interesting (k : string_class) : bool :=
  match k with
  | PlainString | CData => true
  | Comment | OtherString => false
  end.

(** What a [Tag] carries besides its contents: its name, the value of its
    multi-valued [class] attribute (a list of tokens) and its other
    attributes, a dict from names to strings. *)
Record tag_head : Type := {
  name : pystr;
  class_ : list pystr;
  attrs : list (pystr * pystr)
}.

#[warnings="-register-all"]
Inductive node : Type :=
| NavigableString (k : string_class) (s : pystr)
| Tag (h : tag_head) (contents : list node).

(** [tag.get(key)] on the attribute dict; [None] is Python's [None]. *)
Fixpoint get (key : pystr) (d : list (pystr * pystr)) : option pystr :=
  match d with
  | [] => None
  | (k, v) :: d' => if str_eqb k key then Some v else get key d'
  end.

(** A node met while walking a tree, with what the walk knows about its
    place: its ancestors (nearest first) and the siblings after it. *)
Record located : Type := {
  ancestors : list tag_head;
  here : node;
  next_siblings : list node
}.

(** [tag.descendants]: the strict descendants in document order. *)
Fixpoint descendants (ancs : list tag_head) (n : node) : list located :=
  match n with
  | NavigableString _ _ => []
  | Tag h cs =>
      (fix walk (l : list node) : list located :=
         match l with
         | [] => []
         | c :: l' =>
             {| ancestors := h :: ancs; here := c; next_siblings := l' |}
               :: descendants (h :: ancs) c ++ walk l'
         end) cs
  end.

(** The builtins of the interpreter the program calls.  They belong to
    CPython, not to the repository: the program is modelled over any
    implementation of them.  [isdigit] and [isspace] are [str.isdigit] and
    [str.isspace] on one character; [py_int s] is [int(s)] for a [str],
    with [None] for [ValueError]. *)
Class Builtins : Type := {
  isdigit : N -> bool;
  isspace : N -> bool;
  py_int : pystr -> option Z
}.

(** [BeautifulSoup(html, "html.parser")]: the root of the document tree,
    or the exception of the parser on markup it rejects.  The parser
    lower-cases tag names, so soupsieve's case folding of type selectors
    is the identity on its trees. *)
Class HtmlParser : Type := BeautifulSoup : pystr -> result node.

(** ** Selectors *)

(** The selectors of the source are [name.class], or such a compound after
    a descendant combinator: [span.titleline a]. *)
Record compound : Type := {
  sel_type : pystr;
  sel_class : option pystr
}.

Inductive selector : Type :=
| Simple (c : compound)
| Within (anc c : compound).

Definition matches_compound (c : compound) (h : tag_head) : bool :=
  str_eqb (name h) (sel_type c)
  && match sel_class c with
     | None => true
     | Some k => existsb (str_eqb k) (class_ h)
     end.

(** soupsieve matches the descendant combinator against every ancestor of
    the candidate, also those above the tag [select] was called on. *)
Definition matches (sel : selector) (l : located) : bool :=
  match here l with
  | NavigableString _ _ => false
  | Tag h _ =>
      match sel with
      | Simple c => matches_compound c h
      | Within a c =>
          matches_compound c h && existsb (matches_compound a) (ancestors l)
      end
  end.

Definition select (sel : selector) (l : located) : list located :=
  filter (matches sel) (descendants (ancestors l) (here l)).

Definition select_one (sel : selector) (l : located) : option located :=
  hd_error (select sel l).

(** [tag.get(key)] on a located tag. *)
Definition attr (l : located) (key : pystr) : option pystr :=
  match here l with
  | NavigableString _ _ => None
  | Tag h _ => get key (attrs h)
  end.

(** ** The extractor *)

Record post : Type := {
  post_id : Z;
  post_title : pystr;
  post_url : pystr;
  post_user : option pystr;
  post_points : Z;
  post_time_posted : option pystr
}.

Definition tr_athing : selector :=
  Simple {| sel_type := u "tr"; sel_class := Some (u "athing") |}.
Definition span_titleline_a : selector :=
  Within {| sel_type := u "span"; sel_class := Some (u "titleline") |}
         {| sel_type := u "a"; sel_class := None |}.
Definition a_storylink : selector :=
  Simple {| sel_type := u "a"; sel_class := Some (u "storylink") |}.
Definition td_subtext : selector :=
  Simple {| sel_type := u "td"; sel_class := Some (u "subtext") |}.
Definition a_hnuser : selector :=
  Simple {| sel_type := u "a"; sel_class := Some (u "hnuser") |}.
Definition span_score : selector :=
  Simple {| sel_type := u "span"; sel_class := Some (u "score") |}.
Definition span_age : selector :=
  Simple {| sel_type := u "span"; sel_class := Some (u "age") |}.

Definition is_nil {A : Type} (l : list A) : bool :=
  match l with
  | [] => true
  | _ :: _ => false
  end.

Definition is_empty (s : pystr) : bool :=
  match s with
  | [] => true
  | _ :: _ => false
  end.

Section Extractor.
Context {B : Builtins}.

Fixpoint lstrip (s : pystr) : pystr :=
  match s with
  | [] => []
  | c :: s' => if isspace c then lstrip s' else s
  end.

(** [s.strip()] *)
Definition strip (s : pystr) : pystr := rev (lstrip (rev (lstrip s))).

(** The strings [get_text] joins: those of the descendants whose class
    is interesting, each stripped and dropped when empty with
    [strip=True]. *)
Definition all_strings (strip_ : bool) (l : located) : list pystr :=
  flat_map
    (fun d =>
       match here d with
       | NavigableString k s =>
           if interesting k then
             if strip_ then
               if is_empty (strip s) then [] else [strip s]
             else [s]
           else []
       | Tag _ _ => []
       end)
    (descendants (ancestors l) (here l)).

Definition get_text (strip_ : bool) (l : located) : pystr :=
  List.concat (all_strings strip_ l).

(** Lines 88-94: [find_next_sibling()] steps to the next sibling that
    is a [Tag]; the loop stops at the first one named [tr] and looks for
    [td.subtext] inside it. *)
Fixpoint subtext_of (ancs : list tag_head) (sibs : list node)
  : option located :=
  match sibs with
  | [] => None
  | NavigableString _ _ :: rest => subtext_of ancs rest
  | (Tag h _ as sib) :: rest =>
      if str_eqb (name h) (u "tr") then
        select_one td_subtext
          {| ancestors := ancs; here := sib; next_siblings := rest |}
      else subtext_of ancs rest
  end.

(** Lines 106-107, on the text of the score element. *)
Definition points_of_text (score_text : pystr) : result Z :=
  let digits := filter isdigit score_text in
  if is_empty digits then Ok 0
  else match py_int digits with
       | Some z => Ok z
       | None => Raise ValueError
       end.

(** Lines 103-107. *)
Definition score_points (score_el : option located) : result Z :=
  match score_el with
  | None => Ok 0
  | Some el => points_of_text (get_text false el)
  end.

(** Lines 74-78: [None] when the attribute is missing or [int] raises
    [ValueError]. *)
Definition row_post_id (row : located) : option Z :=
  match attr row (u "id") with
  | Some id_attr => py_int id_attr
  | None => None
  end.

(** Lines 81-85. *)
Definition row_anchor (row : located) : option located :=
  match select_one span_titleline_a row with
  | Some a => Some a
  | None => select_one a_storylink row
  end.

Definition anchor_url (anchor : option located) : pystr :=
  let url :=
    match anchor with
    | Some a => match attr a (u "href") with
                | Some v => v
                | None => []
                end
    | None => []
    end in
  if startswith (u "item?id=") url
  then u "https://news.ycombinator.com/" ++ url
  else url.

(** Lines 96-111: the fields read from the subtext cell. *)
Definition subtext_fields (subtext_td : option located)
  : result (option pystr * Z * option pystr) :=
  match subtext_td with
  | None => Ok (None, 0, None)
  | Some td =>
      let user := option_map (get_text true) (select_one a_hnuser td) in
      (points <- score_points (select_one span_score td) ;;
       let time_posted :=
         match select_one span_age td with
         | Some age_el => attr age_el (u "title")
         | None => None
         end in
       Ok (user, points, time_posted))%result
  end.

(** Line 82. *)
Definition anchor_title (anchor : option located) : pystr :=
  match anchor with
  | Some a => get_text true a
  | None => []
  end.

(** The body of the loop of [parse_posts] for one row: the record it
    appends, [None] when it takes [continue]. *)
Definition parse_row (row : located) : result (option post) :=
  let post_id := row_post_id row in
  let anchor := row_anchor row in
  let title := anchor_title anchor in
  let url := anchor_url anchor in
  let subtext_td := subtext_of (ancestors row) (next_siblings row) in
  (f <- subtext_fields subtext_td ;;
   let '(user, points, time_posted) := f in
   match post_id with
   | None => Ok None
   | Some i =>
       if (i <=? 0) || is_empty title then Ok None
       else Ok (Some {| post_id := i;
                        post_title := title;
                        post_url := url;
                        post_user := user;
                        post_points := points;
                        post_time_posted := time_posted |})
   end)%result.

Fixpoint parse_rows (rows : list located) : result (list post) :=
  match rows with
  | [] => Ok []
  | row :: rest =>
      (o <- parse_row row ;;
       posts <- parse_rows rest ;;
       Ok (match o with
           | Some p => p :: posts
           | None => posts
           end))%result
  end.

Definition document (soup : node) : located :=
  {| ancestors := []; here := soup; next_siblings := [] |}.

(** [parse_posts] from line 70 on, over the parsed document. *)
Definition parse_soup (soup : node) : result (list post) :=
  parse_rows (select tr_athing (document soup)).

(** Lines 68-127: line 69 parses the markup, and can raise. *)
Definition parse_posts {P : HtmlParser} (html : pystr) : result (list post) :=
  (soup <- BeautifulSoup html ;; parse_soup soup)%result.

End Extractor.

(** ** CPython's builtins on Latin-1 text

    An implementation of [Builtins] to run the program on examples: what
    CPython does on strings whose code points are below 256.  From 256 on
    it takes a code point for neither a digit nor a space, which is not
    what CPython's tables say, so it is used on Latin-1 text only. *)
Module Latin1.

Definition between (lo hi c : N) : bool := (N.leb lo c && N.leb c hi)%bool.

(** [str.isdigit]: the decimal digits and the superscripts U+00B2,
    U+00B3 and U+00B9, whose numeric type is Digit. *)
Definition digit (c : N) : bool :=
  between 48 57 c || N.eqb c 178 || N.eqb c 179 || N.eqb c 185.

(** [str.isspace] *)
Definition space (c : N) : bool :=
  between 9 13 c || between 28 32 c || N.eqb c 133 || N.eqb c 160.

(** The spaces [int] skips around a literal. *)
Definition int_space (c : N) : bool :=
  between 9 13 c || N.eqb c 32 || N.eqb c 133 || N.eqb c 160.

Fixpoint skip_spaces (s : pystr) : pystr :=
  match s with
  | [] => []
  | c :: s' => if int_space c then skip_spaces s' else s
  end.

(** The digits of a decimal literal, with single underscores between
    digits; [after_digit] says that the character before was a digit. *)
Fixpoint digits_value (acc : Z) (after_digit : bool) (s : pystr)
  : option Z :=
  match s with
  | [] => if after_digit then Some acc else None
  | c :: s' =>
      if between 48 57 c then
        digits_value (10 * acc + (Z.of_N c - 48)) true s'
      else if N.eqb c 95 && after_digit then digits_value acc false s'
      else None
  end.

(** [int(s)]: spaces, an optional sign, decimal digits, spaces.  Only
    the decimal digits U+0030 to U+0039 are accepted: a superscript
    makes [int] raise [ValueError].  This is [int] without a limit on
    the number of digits, as before CPython 3.11; from 3.11 on [int] also
    raises [ValueError] on more than 4300 digits. *)
Definition int (s : pystr) : option Z :=
  let body := rev (skip_spaces (rev (skip_spaces s))) in
  match body with
  | [] => None
  | c :: ds =>
      if N.eqb c 43 then digits_value 0 false ds
      else if N.eqb c 45 then option_map Z.opp (digits_value 0 false ds)
      else digits_value 0 false body
  end.

#[export] Instance builtins : Builtins :=
  {| isdigit := digit;
     isspace := space;
     py_int := int |}.

End Latin1.

(** ** The store *)

(** A row of the table [posts]; a column that may hold NULL is an
    [option]. *)
Record row : Type := {
  row_id : Z;
  row_title : pystr;
  row_url : option pystr;
  row_user : option pystr;
  row_points : option Z;
  row_time_posted : option pystr;
  row_scraped_at : pystr
}.

(** The rows of the table.  The order of the list is that of first
    insertion; it is not the order of the b-tree of the table, which
    keeps the rows by [id], and no statement of the program observes
    either.  That [id] is the primary key is not part of the type: the
    statement below keeps it (see [insert_on_conflict_primary_key]). *)
Definition table := list row.

Definition select_by_id (t : table) (i : Z) : option row :=
  find (fun r => row_id r =? i) t.

Definition count_id (i : Z) (t : table) : nat :=
  List.length (filter (fun r => row_id r =? i) t).

Definition primary_key (t : table) : Prop := NoDup (map row_id t).

(** The row the statement proposes, [excluded] in its [DO UPDATE] clause:
    the parameters [{**row, "scraped_at": now_iso}]. *)
Definition excluded (p : post) (now_iso : pystr) : row :=
  {| row_id := post_id p;
     row_title := post_title p;
     row_url := Some (post_url p);
     row_user := post_user p;
     row_points := Some (post_points p);
     row_time_posted := post_time_posted p;
     row_scraped_at := now_iso |}.

(** SQL's [COALESCE] of two arguments. *)
Definition coalesce {A : Type} (a b : option A) : option A :=
  match a with
  | Some _ => a
  | None => b
  end.

(** Lines 136-142: the [DO UPDATE SET] clause on the conflicting row. *)
Definition do_update (posts_row excl : row) : row :=
  {| row_id := row_id posts_row;
     row_title := row_title excl;
     row_url := row_url excl;
     row_user := row_user excl;
     row_points := row_points excl;
     row_time_posted :=
       coalesce (row_time_posted excl) (row_time_posted posts_row);
     row_scraped_at := row_scraped_at excl |}.

(** Lines 134-142: [INSERT ... ON CONFLICT(id) DO UPDATE]: the row with
    the proposed id is updated where it is; without one the proposed row
    is added. *)
Fixpoint insert_on_conflict (t : table) (excl : row) : table :=
  match t with
  | [] => [excl]
  | r :: t' =>
      if row_id r =? row_id excl then do_update r excl :: t'
      else r :: insert_on_conflict t' excl
  end.

(** An [int] parameter is bound as a 64-bit integer; sqlite3 raises
    [OverflowError] for one that does not fit.  A [str] parameter that
    cannot be encoded (a lone surrogate) also fails at binding: such a
    statement is one of those at which [storage_fault] of the
    surroundings holds. *)
Definition int64 (z : Z) : bool := (- 2 ^ 63 <=? z) && (z <? 2 ^ 63).

Definition bindable (p : post) : bool :=
  int64 (post_id p) && int64 (post_points p).

(** The database behind a connection: what is committed, and the table
    as the open transaction has it, if one is open.  The table [posts]
    exists: [ensure_db] has run. *)
Record database : Type := {
  committed : table;
  transaction : option table
}.

Definition current (d : database) : table :=
  match transaction d with
  | Some t => t
  | None => committed d
  end.

Definition begin (d : database) : database :=
  {| committed := committed d; transaction := Some (current d) |}.

Definition commit (d : database) : database :=
  {| committed := current d; transaction := None |}.

Definition rollback (d : database) : database :=
  {| committed := committed d; transaction := None |}.

(** ** The world of a run *)

Inductive handle : Type :=
| NotConnected
| Open
| Closed.

(** What the program writes to its standard streams. *)
Inductive message : Type :=
| FetchFailed (e : exn)
| NoPostsParsed
| Upserted (n : nat) (at_ : pystr)
| ScrapeFailed (e : exn).

Record world : Type := {
  conn : handle;
  db : database;
  ticks : nat;
  statements : nat;
  stdout : list message;
  stderr : list message
}.

(** What a run does not decide: the readings of the clock, the outcome
    of the request, the snapshot file if there is one, and the statements
    (counted from the start of the run) that fail for another reason than
    an integer out of range: a fault of the storage layer, or a string
    that cannot be bound. *)
Record env : Type := {
  clock : nat -> pystr;
  fetch : result pystr;
  dummy_html : option pystr;
  storage_fault : nat -> bool
}.

(** A computation on the world that returns or raises. *)
Definition M (A : Type) : Type := world -> result A * world.

Definition ret {A : Type} (a : A) : M A := fun w => (Ok a, w).

Definition raise {A : Type} (e : exn) : M A := fun w => (Raise e, w).

Definition mbind {A C : Type} (m : M A) (k : A -> M C) : M C :=
  fun w =>
    match m w with
    | (Ok a, w') => k a w'
    | (Raise e, w') => (Raise e, w')
    end.

Declare Scope prog_scope.
Delimit Scope prog_scope with prog.
Notation "x <- m ;; k" := (mbind m (fun x => k))
  (at level 61, m at next level, right associativity) : prog_scope.
Notation "m ;; k" := (mbind m (fun _ => k))
  (at level 61, right associativity) : prog_scope.

Definition lift {A : Type} (r : result A) : M A := fun w => (r, w).

Definition modify (f : world -> world) : M unit := fun w => (Ok tt, f w).

(** [try: body except Exception as e: handler(e)] *)
Definition try_except {A : Type} (body : M A) (handler : exn -> M A) : M A :=
  fun w =>
    match body w with
    | (Ok a, w') => (Ok a, w')
    | (Raise e, w') => handler e w'
    end.

Definition set_db (d : database) (w : world) : world :=
  {| conn := conn w; db := d; ticks := ticks w;
     statements := statements w; stdout := stdout w; stderr := stderr w |}.

Definition set_conn (h : handle) (w : world) : world :=
  {| conn := h; db := db w; ticks := ticks w;
     statements := statements w; stdout := stdout w; stderr := stderr w |}.

Definition stderr_write (m : message) : M unit :=
  modify (fun w =>
    {| conn := conn w; db := db w; ticks := ticks w;
       statements := statements w; stdout := stdout w;
       stderr := stderr w ++ [m] |}).

(** [print(...)], in a run whose standard output can be written. *)
Definition print (m : message) : M unit :=
  modify (fun w =>
    {| conn := conn w; db := db w; ticks := ticks w;
       statements := statements w; stdout := stdout w ++ [m];
       stderr := stderr w |}).

(** [datetime.now(timezone.utc).isoformat()]: each call reads the clock
    anew. *)
Definition datetime_now (e : env) : M pystr :=
  fun w =>
    (Ok (clock e (ticks w)),
     {| conn := conn w; db := db w; ticks := S (ticks w);
        statements := statements w; stdout := stdout w;
        stderr := stderr w |}).

(** Line 147, [conn.execute(sql, {**row, "scraped_at": now_iso})]: the
    module opens a transaction before the statement if none is open,
    binds the parameters and runs the statement. *)
Definition execute (e : env) (p : post) (now_iso : pystr) : M unit :=
  fun w =>
    let k := statements w in
    let w1 :=
      {| conn := conn w; db := begin (db w); ticks := ticks w;
         statements := S k; stdout := stdout w; stderr := stderr w |} in
    if negb (bindable p) then (Raise OverflowError, w1)
    else if storage_fault e k then (Raise SqliteError, w1)
    else
      (Ok tt,
       set_db {| committed := committed (db w1);
                 transaction :=
                   Some (insert_on_conflict (current (db w1))
                           (excluded p now_iso)) |} w1).

(** [with conn: body]: commit when the body returns, roll back and let
    the exception through when it raises. *)
Definition with_conn {A : Type} (body : M A) : M A :=
  fun w =>
    match body w with
    | (Ok a, w') => (Ok a, set_db (commit (db w')) w')
    | (Raise e, w') => (Raise e, set_db (rollback (db w')) w')
    end.

(** [for x in l: body(x)] *)
Fixpoint for_each {A : Type} (l : list A) (body : A -> M unit) : M unit :=
  match l with
  | [] => ret tt
  | x :: l' => (body x ;; for_each l' body)%prog
  end.

(** Lines 130-147. *)
Definition upsert_posts (e : env) (posts : list post) : M unit :=
  (now_iso <- datetime_now e ;;
   with_conn (for_each posts (fun row => execute e row now_iso)))%prog.

(** Lines 34-49: the pragma opens no transaction, [executescript] commits
    a pending one, and the table and its index are created if absent.
    The runs modelled are those in which the database can be opened and
    initialised: a failure here (a file that cannot be opened, a locked or
    read-only database) is not among them. *)
Definition ensure_db : M unit :=
  modify (fun w => set_db (commit (db w)) w).

(** Lines 52-65. *)
Definition get_html (e : env) : M pystr :=
  try_except (lift (fetch e))
    (fun x =>
       (stderr_write (FetchFailed x) ;;
        match dummy_html e with
        | Some s => ret s
        | None => raise OSError
        end)%prog).

(** [sqlite3.connect(DB_PATH)], in a run in which the file can be
    opened. *)
Definition connect : M unit := modify (set_conn Open).

(** [conn.close()]: a pending transaction is lost. *)
Definition close : M unit :=
  modify (fun w => set_conn Closed (set_db (rollback (db w)) w)).

Section Main.
Context {B : Builtins} {P : HtmlParser}.

(** Lines 150-164: the exit status of the run. *)
Definition main (e : env) : M Z :=
  try_except
    (connect ;;
     ensure_db ;;
     html <- get_html e ;;
     posts <- lift (parse_posts html) ;;
     (if is_nil posts then stderr_write NoPostsParsed else ret tt) ;;
     upsert_posts e posts ;;
     now <- datetime_now e ;;
     print (Upserted (List.length posts) now) ;;
     close ;;
     ret 0)%prog
    (fun x => (stderr_write (ScrapeFailed x) ;; ret 1)%prog).

End Main.

(** ** Example documents *)

Local Open Scope string_scope.

Definition text (s : string) : node := NavigableString PlainString (u s).

Definition elem (n : string) (cls : list string) (a : list (string * pystr))
  (contents : list node) : node :=
  Tag {| name := u n;
         class_ := map u cls;
         attrs := map (fun kv => (u (fst kv), snd kv)) a |}
      contents.

(** An item row, and the row that follows it with the subtext cell, as
    the front page has them. *)
Definition item_row (id_ : pystr) (title href : string) : node :=
  elem "tr" ["athing"] [("id", id_)]
    [ elem "td" ["title"] []
        [ elem "span" ["titleline"] []
            [ elem "a" [] [("href", u href)] [text title] ] ] ].

Definition subtext_row (score : pystr) (user age : string) : node :=
  elem "tr" [] []
    [ elem "td" ["subtext"] []
        [ elem "span" ["score"] [] [NavigableString PlainString score];
          text " by ";
          elem "a" ["hnuser"] [] [text user];
          elem "span" ["age"] [("title", u age)] [text "1 hour ago"] ] ].

Definition item_rows (id_ : pystr) (title href : string) (score : pystr)
  (user age : string) : list node :=
  [ item_row id_ title href; text " "; subtext_row score user age ].

Definition page (rows : list node) : node :=
  elem "[document]" [] [] [ elem "table" [] [] rows ].

Definition example_page : node :=
  page (item_rows (u "123") "Example" "item?id=123" (u "456 points")
          "alice" "2024-01-01T00:00:00Z").

(** The score text of [superscript_page] is "5² points": U+00B2 after
    the 5. *)
Definition superscript_score : pystr :=
  (u "5" ++ [178%N] ++ u " points")%list.

Definition superscript_page : node :=
  page (item_rows (u "123") "Example" "https://example.com/" superscript_score
          "alice" "2024-01-01T00:00:00Z").


(** An item row followed by a spacer row only. *)
Definition bare_page : node :=
  page [ item_row (u "42") "Bare" "item?id=42";
         elem "tr" ["spacer"] [] [] ].

(** An item row, a spacer row, and only then a row with a subtext
    cell. *)
Definition late_subtext_page : node :=
  page [ item_row (u "42") "Late" "https://example.com/";
         text " ";
         elem "tr" ["spacer"] [] [];
         subtext_row (u "7 points") "carol" "2024-03-03T00:00:00Z" ].

(** The first item row of a document. *)
Definition first_row (soup : node) : located :=
  hd (document soup) (select tr_athing (document soup)).

(** ** Example runs *)

Definition empty_db : database := {| committed := []; transaction := None |}.

Definition start (d : database) : world :=
  {| conn := NotConnected; db := d; ticks := 0; statements := 0;
     stdout := []; stderr := [] |}.

(** A clock that reads "t0", "t1", ... *)
Definition example_clock (n : nat) : pystr :=
  (u "t" ++ [N.of_nat (48 + n)])%list.

(** The request fails and there is no snapshot file. *)
Definition offline_no_snapshot : env :=
  {| clock := example_clock;
     fetch := Raise RequestException;
     dummy_html := None;
     storage_fault := fun _ => false |}.

(** The request returns [html]. *)
Definition online (html : pystr) : env :=
  {| clock := example_clock;
     fetch := Ok html;
     dummy_html := None;
     storage_fault := fun _ => false |}.

(** A database that holds one post, scraped at "t-". *)
Definition stored_post : row :=
  {| row_id := 1;
     row_title := u "old title";
     row_url := Some (u "https://example.org/");
     row_user := Some (u "bob");
     row_points := Some 10;
     row_time_posted := Some (u "2024-01-01T00:00:00Z");
     row_scraped_at := u "t-" |}.

Definition one_post_db : database :=
  {| committed := [stored_post]; transaction := None |}.

(** The request fails and the snapshot file holds [html]. *)
Definition offline_snapshot (html : pystr) : env :=
  {| clock := example_clock;
     fetch := Raise RequestException;
     dummy_html := Some html;
     storage_fault := fun _ => false |}.

(** Parsers that return a given document, whatever the markup. *)
Definition example_parser : HtmlParser := fun _ => Ok example_page.

Definition no_rows_parser : HtmlParser := fun _ => Ok (page []).

(** A page with two items, the second with the id 2^63. *)
Definition huge_id_page : node :=
  page (item_rows (u "123") "Example" "item?id=123" (u "456 points")
          "alice" "2024-01-01T00:00:00Z"
        ++ item_rows (u "9223372036854775808") "Huge" "https://example.com/"
             (u "1 point") "bob" "2024-01-02T00:00:00Z")%list.

Definition huge_id_parser : HtmlParser := fun _ => Ok huge_id_page.

Definition example_record : post :=
  {| post_id := 123;
     post_title := u "Example";
     post_url := u "https://news.ycombinator.com/item?id=123";
     post_user := Some (u "alice");
     post_points := 456;
     post_time_posted := Some (u "2024-01-01T00:00:00Z") |}.

Definition example_post (i : Z) (title : string) (points : Z)
  (time_posted : option pystr) : post :=
  {| post_id := i;
     post_title := u title;
     post_url := u "https://example.com/";
     post_user := Some (u "alice");
     post_points := points;
     post_time_posted := time_posted |}.


Local Close Scope string_scope.

(** ** Vocabulary of the properties *)

(** The batch, one statement after the other, on a table. *)
Definition upsert_all (now_iso : pystr) (posts : list post) (t : table)
  : table :=
  fold_left (fun acc p => insert_on_conflict acc (excluded p now_iso)) posts t.

(** No statement of the batch fails, the first being the [k]-th of the
    run. *)
Fixpoint batch_ok (e : env) (k : nat) (posts : list post) : bool :=
  match posts with
  | [] => true
  | p :: rest =>
      bindable p && negb (storage_fault e k) && batch_ok e (S k) rest
  end.

(** The last record of a sequence with a given id, and the last
    [time_posted] that is not null among the records with that id. *)
Definition last_with_id (i : Z) (posts : list post) : option post :=
  find (fun p => post_id p =? i) (rev posts).

Definition has_time (p : post) : bool :=
  match post_time_posted p with
  | Some _ => true
  | None => false
  end.

Definition last_time_posted (i : Z) (posts : list post) : option pystr :=
  match find (fun p => (post_id p =? i) && has_time p) (rev posts) with
  | Some p => post_time_posted p
  | None => None
  end.

(** The [time_posted] a table holds for an id; null without a row. *)
Definition stored_time_posted (t : table) (i : Z) : option pystr :=
  match select_by_id t i with
  | Some r => row_time_posted r
  | None => None
  end.

(** The merge rule in the words of the specification: [time_posted] is
    the new record's when that is not null and the stored one otherwise;
    the other columns are the new record's. *)
Definition merged (old : row) (p : post) (scraped_at : pystr) : row :=
  {| row_id := post_id p;
     row_title := post_title p;
     row_url := Some (post_url p);
     row_user := post_user p;
     row_points := Some (post_points p);
     row_time_posted :=
       match post_time_posted p with
       | Some new_time => Some new_time
       | None => row_time_posted old
       end;
     row_scraped_at := scraped_at |}.

(** The integer a string of decimal digits denotes; 0 for the empty
    string. *)
Definition decimal_value (digits : pystr) : Z :=
  fold_left (fun acc c => 10 * acc + (Z.of_N c - 48)) digits 0.

Definition decimal_digit (c : N) : bool := (N.leb 48 c && N.leb c 57)%bool.

(** The characters of Latin-1 that [str.isdigit] holds of and [int]
    rejects. *)
Definition superscript_digit (c : N) : bool :=
  N.eqb c 178 || N.eqb c 179 || N.eqb c 185.

Definition is_tr (n : node) : bool :=
  match n with
  | NavigableString _ _ => false
  | Tag h _ => str_eqb (name h) (u "tr")
  end.

(** A node of a row's parent, seen from the row. *)
Definition beside (row : located) (sib : node) : located :=
  {| ancestors := ancestors row; here := sib; next_siblings := [] |}.

Section RowVocabulary.
Context {B : Builtins}.

(** The discard rule in the words of the specification: a row is kept
    when its identifier is a positive integer and its title is not
    empty. *)
Definition kept (row : located) : bool :=
  match row_post_id row with
  | Some i => (0 <? i) && negb (is_empty (anchor_title (row_anchor row)))
  | None => false
  end.

(** The records a row contributes to the output. *)
Definition records_of (row : located) : list post :=
  match parse_row row with
  | Ok (Some p) => [p]
  | _ => []
  end.

End RowVocabulary.

(** ** Vocabulary of the further properties *)

(** The markup a run works on: the response, or the snapshot when the
    request fails; [None] when there is neither. *)
Definition markup (e : env) : option pystr :=
  match fetch e with
  | Ok response => Some response
  | Raise _ => dummy_html e
  end.

(** The row an id has after a batch on a table. *)
Definition row_after (now_iso : pystr) (posts : list post) (t : table)
  (i : Z) : option row :=
  match last_with_id i posts with
  | None => select_by_id t i
  | Some p =>
      Some {| row_id := i;
              row_title := post_title p;
              row_url := Some (post_url p);
              row_user := post_user p;
              row_points := Some (post_points p);
              row_time_posted :=
                coalesce (last_time_posted i posts) (stored_time_posted t i);
              row_scraped_at := now_iso |}
  end.

Definition is_none {A : Type} (o : option A) : bool :=
  match o with
  | Some _ => false
  | None => true
  end.

(** The exception of the first statement of a batch that fails, the
    first statement being the [k]-th of the run; [None] when none does. *)
Fixpoint first_failure (e : env) (k : nat) (posts : list post) : option exn :=
  match posts with
  | [] => None
  | p :: rest =>
      if negb (bindable p) then Some OverflowError
      else if storage_fault e k then Some SqliteError
      else first_failure e (S k) rest
  end.

(** What [get_html] writes to standard error. *)
Definition fetch_diagnostic (e : env) : list message :=
  match fetch e with
  | Ok _ => []
  | Raise x => [FetchFailed x]
  end.

(** The warning of line 157. *)
Definition no_posts_warning (posts : list post) : list message :=
  if is_nil posts then [NoPostsParsed] else [].

(** The same surroundings, with a request that returns [response]. *)
Definition with_response (e : env) (response : pystr) : env :=
  {| clock := clock e;
     fetch := Ok response;
     dummy_html := dummy_html e;
     storage_fault := storage_fault e |}.

Section RunVocabulary.
Context {B : Builtins} {P : HtmlParser}.

(** The run fails before anything is committed: there is no markup, or
    [parse_posts] raises on it, or a statement of the batch fails. *)
Definition fails_before_commit (e : env) (w : world) : bool :=
  match markup e with
  | None => true
  | Some html =>
      match parse_posts html with
      | Raise _ => true
      | Ok posts => negb (batch_ok e (statements w) posts)
      end
  end.

End RunVocabulary.

Section ScoreVocabulary.
Context {B : Builtins}.

(** The row has a subtext cell with a score element whose text has
    characters that [str.isdigit] holds of, and [int] rejects them. *)
Definition bad_score (row : located) : bool :=
  match subtext_of (ancestors row) (next_siblings row) with
  | None => false
  | Some td =>
      match select_one span_score td with
      | None => false
      | Some score_el =>
          let digits := filter isdigit (get_text false score_el) in
          negb (is_empty digits) && is_none (py_int digits)
      end
  end.

(** A string that is not empty and neither begins nor ends with a
    character [str.isspace] holds of. *)
Definition trimmed (s : pystr) : Prop :=
  exists c rest,
    s = c :: rest /\ isspace c = false /\ isspace (last s c) = false.

End ScoreVocabulary.

(** * Properties *)

(** ** Strings *)

Lemma str_eqb_eq (a b : pystr) : str_eqb a b = true <-> a = b.
Proof.
  revert b; induction a as [|x a IH]; intros [|y b]; simpl;
    try (split; [discriminate | congruence]); try tauto.
  rewrite andb_true_iff, N.eqb_eq, IH.
  split; [intros [-> ->]; reflexivity | intros [= -> ->]; auto].
Qed.

Lemma startswith_app (prefix s : pystr) :
  startswith prefix s = true <-> exists rest, s = prefix ++ rest.
Proof.
  revert s; induction prefix as [|x p IH]; intros s; simpl.
  - split; [intros _; exists s; reflexivity | reflexivity].
  - destruct s as [|y s].
    + split; [discriminate | intros [rest H]; discriminate].
    + rewrite andb_true_iff, N.eqb_eq, IH.
      split.
      * intros [-> [rest ->]]. exists rest; reflexivity.
      * intros [rest [= -> ->]]. split; [reflexivity | exists rest; reflexivity].
Qed.

(** ** The statement *)

(** What the table holds for an id after the statement. *)
Lemma select_by_id_insert (t : table) (x : row) (i : Z) :
  select_by_id (insert_on_conflict t x) i =
  if row_id x =? i then
    Some (match select_by_id t i with
          | Some old => do_update old x
          | None => x
          end)
  else select_by_id t i.
Proof.
  unfold select_by_id.
  induction t as [|r t IH]; simpl.
  - destruct (row_id x =? i); reflexivity.
  - destruct (row_id r =? row_id x) eqn:Hrx; simpl.
    + apply Z.eqb_eq in Hrx. rewrite Hrx.
      destruct (row_id x =? i); reflexivity.
    + destruct (row_id r =? i) eqn:Hri.
      * apply Z.eqb_eq in Hri. subst i.
        rewrite Z.eqb_sym, Hrx. reflexivity.
      * exact IH.
Qed.

Lemma ids_insert_present (t : table) (x : row) :
  In (row_id x) (map row_id t) ->
  map row_id (insert_on_conflict t x) = map row_id t.
Proof.
  induction t as [|r t IH]; simpl; [tauto|].
  intros H. destruct (row_id r =? row_id x) eqn:E; simpl.
  - reflexivity.
  - f_equal. apply IH. destruct H as [H|H]; [|exact H].
    apply Z.eqb_neq in E. contradiction.
Qed.

Lemma ids_insert_absent (t : table) (x : row) :
  ~ In (row_id x) (map row_id t) ->
  map row_id (insert_on_conflict t x) = map row_id t ++ [row_id x].
Proof.
  induction t as [|r t IH]; simpl; [reflexivity|].
  intros H. destruct (row_id r =? row_id x) eqn:E; simpl.
  - apply Z.eqb_eq in E. tauto.
  - f_equal. apply IH. tauto.
Qed.

Lemma ids_insert_in (t : table) (x : row) :
  In (row_id x) (map row_id (insert_on_conflict t x)).
Proof.
  destruct (in_dec Z.eq_dec (row_id x) (map row_id t)) as [H|H].
  - rewrite ids_insert_present; assumption.
  - rewrite ids_insert_absent by assumption.
    apply in_or_app. right. left. reflexivity.
Qed.

Lemma ids_insert_mono (t : table) (x : row) (i : Z) :
  In i (map row_id t) -> In i (map row_id (insert_on_conflict t x)).
Proof.
  intros Hi.
  destruct (in_dec Z.eq_dec (row_id x) (map row_id t)) as [H|H].
  - rewrite ids_insert_present; assumption.
  - rewrite ids_insert_absent by assumption.
    apply in_or_app. left. exact Hi.
Qed.

(** The statement keeps [id] a key of the table. *)
Lemma insert_on_conflict_primary_key (t : table) (x : row) :
  primary_key t -> primary_key (insert_on_conflict t x).
Proof.
  unfold primary_key. intros Hk.
  destruct (in_dec Z.eq_dec (row_id x) (map row_id t)) as [H|H].
  - rewrite ids_insert_present; assumption.
  - rewrite ids_insert_absent by assumption.
    apply NoDup_app; [exact Hk | apply NoDup_cons; [tauto | constructor] |].
    intros a Ha [<-|[]]. contradiction.
Qed.

Lemma count_id_primary_key (t : table) (i : Z) :
  primary_key t -> In i (map row_id t) -> count_id i t = 1%nat.
Proof.
  unfold primary_key, count_id.
  induction t as [|r t IH]; simpl; [tauto|].
  intros Hk Hi. inversion Hk as [|? ? Hnotin Hk']; subst.
  destruct (row_id r =? i) eqn:E; simpl.
  - apply Z.eqb_eq in E. subst i. f_equal.
    clear IH Hi Hk Hk'. induction t as [|r' t IH]; simpl; [reflexivity|].
    destruct (row_id r' =? row_id r) eqn:E'.
    + apply Z.eqb_eq in E'. simpl in Hnotin. tauto.
    + apply IH. simpl in Hnotin. tauto.
  - apply IH; [exact Hk'|].
    destruct Hi as [Hi|Hi]; [|exact Hi].
    apply Z.eqb_neq in E. contradiction.
Qed.

(** ** The batch on a table *)

Lemma upsert_all_snoc (now : pystr) (posts : list post) (p : post) (t : table) :
  upsert_all now (posts ++ [p]) t =
  insert_on_conflict (upsert_all now posts t) (excluded p now).
Proof. unfold upsert_all. rewrite fold_left_app. reflexivity. Qed.

Lemma upsert_all_primary_key (now : pystr) (posts : list post) (t : table) :
  primary_key t -> primary_key (upsert_all now posts t).
Proof.
  revert t; induction posts as [|p posts IH]; intros t Hk; simpl; [exact Hk|].
  apply IH, insert_on_conflict_primary_key, Hk.
Qed.

Lemma upsert_all_ids_mono (now : pystr) (posts : list post) (t : table) (i : Z) :
  In i (map row_id t) -> In i (map row_id (upsert_all now posts t)).
Proof.
  revert t; induction posts as [|p posts IH]; intros t Hi; simpl; [exact Hi|].
  apply IH, ids_insert_mono, Hi.
Qed.

Lemma upsert_all_ids_in (now : pystr) (posts : list post) (t : table) (p : post) :
  In p posts -> In (post_id p) (map row_id (upsert_all now posts t)).
Proof.
  revert t; induction posts as [|q posts IH]; intros t Hp; simpl; [destruct Hp|].
  destruct Hp as [->|Hp].
  - apply upsert_all_ids_mono.
    exact (ids_insert_in t (excluded p now)).
  - apply IH, Hp.
Qed.

(** A batch whose ids are all in the table adds no row and moves none. *)
Lemma upsert_all_ids_present (now : pystr) (posts : list post) (t : table) :
  (forall p, In p posts -> In (post_id p) (map row_id t)) ->
  map row_id (upsert_all now posts t) = map row_id t.
Proof.
  revert t; induction posts as [|q posts IH]; intros t H; simpl; [reflexivity|].
  assert (E : map row_id (insert_on_conflict t (excluded q now)) = map row_id t).
  { apply ids_insert_present. apply (H q). left; reflexivity. }
  rewrite IH; [exact E|].
  intros p Hp. rewrite E. apply H. right; exact Hp.
Qed.

Lemma find_snoc {A : Type} (f : A -> bool) (l : list A) (x : A) :
  find f (rev (l ++ [x])) = if f x then Some x else find f (rev l).
Proof. rewrite rev_app_distr. reflexivity. Qed.

Lemma stored_time_posted_insert (t : table) (p : post) (now : pystr) (i : Z) :
  stored_time_posted (insert_on_conflict t (excluded p now)) i =
  if post_id p =? i
  then coalesce (post_time_posted p) (stored_time_posted t i)
  else stored_time_posted t i.
Proof.
  unfold stored_time_posted. rewrite select_by_id_insert. simpl.
  destruct (post_id p =? i); [|reflexivity].
  destruct (select_by_id t i); simpl; [reflexivity|].
  destruct (post_time_posted p); reflexivity.
Qed.

(** The [time_posted] of an id after the batch: the last one of the
    batch that is not null, else what the table held. *)
Lemma stored_time_posted_upsert_all (now : pystr) (posts : list post)
  (t : table) (i : Z) :
  stored_time_posted (upsert_all now posts t) i =
  coalesce (last_time_posted i posts) (stored_time_posted t i).
Proof.
  induction posts as [|q posts IH] using rev_ind; [reflexivity|].
  rewrite upsert_all_snoc, stored_time_posted_insert, IH.
  assert (E : last_time_posted i (posts ++ [q]) =
              if (post_id q =? i) && has_time q then post_time_posted q
              else last_time_posted i posts).
  { unfold last_time_posted. rewrite find_snoc.
    destruct ((post_id q =? i) && has_time q); reflexivity. }
  rewrite E. unfold has_time.
  destruct (post_id q =? i); simpl; [|reflexivity].
  destruct (post_time_posted q); reflexivity.
Qed.

Lemma last_with_id_in (posts : list post) (p : post) :
  In p posts -> exists pl, last_with_id (post_id p) posts = Some pl.
Proof.
  intros Hp. unfold last_with_id.
  destruct (find (fun q => post_id q =? post_id p) (rev posts)) eqn:E;
    [eauto|].
  pose proof (find_none _ _ E p) as N. simpl in N.
  rewrite Z.eqb_refl in N.
  assert (true = false) by (apply N; rewrite <- in_rev; exact Hp).
  discriminate.
Qed.

(** The other columns of an id after the batch are those of the last
    record of the batch with that id. *)
Lemma select_by_id_upsert_all (now : pystr) (posts : list post) (t : table)
  (i : Z) (pl : post) :
  last_with_id i posts = Some pl ->
  exists r,
    select_by_id (upsert_all now posts t) i = Some r
    /\ row_id r = i
    /\ row_title r = post_title pl
    /\ row_url r = Some (post_url pl)
    /\ row_user r = post_user pl
    /\ row_points r = Some (post_points pl)
    /\ row_scraped_at r = now.
Proof.
  unfold last_with_id.
  induction posts as [|q posts IH] using rev_ind; [discriminate|].
  rewrite find_snoc, upsert_all_snoc, select_by_id_insert. simpl.
  destruct (post_id q =? i) eqn:E.
  - intros [= <-]. apply Z.eqb_eq in E.
    destruct (select_by_id (upsert_all now posts t) i) as [old|] eqn:Hold.
    + eexists; split; [reflexivity|]. simpl.
      apply find_some in Hold. destruct Hold as [_ Hold].
      apply Z.eqb_eq in Hold. repeat split; auto.
    + eexists; split; [reflexivity|]. simpl. repeat split; auto.
  - exact IH.
Qed.

(** ** The batch inside its transaction *)

(** The loop of line 146: it never touches what is committed; when no
    statement fails it leaves the whole batch in the open transaction. *)
Lemma for_each_execute (e : env) (now : pystr) (posts : list post) :
  forall w,
    let r := for_each posts (fun row => execute e row now) w in
    committed (db (snd r)) = committed (db w)
    /\ ticks (snd r) = ticks w
    /\ conn (snd r) = conn w
    /\ if batch_ok e (statements w) posts
       then fst r = Ok tt
            /\ current (db (snd r)) = upsert_all now posts (current (db w))
       else exists x, fst r = Raise x.
Proof.
  induction posts as [|p posts IH]; intros w; simpl.
  - repeat split; reflexivity.
  - unfold mbind, execute.
    destruct (bindable p); simpl.
    + destruct (storage_fault e (statements w)); simpl.
      * repeat split; eauto.
      * match goal with
        | |- context [for_each posts _ ?w1] => specialize (IH w1)
        end.
        simpl in IH. exact IH.
    + repeat split; eauto.
Qed.

(** [upsert_posts] reads the clock once; when no statement fails the
    whole batch is committed, and when one fails the transaction is rolled
    back. *)
Lemma upsert_posts_run (e : env) (posts : list post) (w : world) :
  let r := upsert_posts e posts w in
  ticks (snd r) = S (ticks w)
  /\ conn (snd r) = conn w
  /\ if batch_ok e (statements w) posts
     then fst r = Ok tt
          /\ db (snd r) =
             {| committed := upsert_all (clock e (ticks w)) posts (current (db w));
                transaction := None |}
     else (exists x, fst r = Raise x) /\ db (snd r) = rollback (db w).
Proof.
  unfold upsert_posts, mbind, datetime_now, with_conn. simpl.
  match goal with
  | |- context [for_each posts ?f ?w1] =>
      pose proof (for_each_execute e (clock e (ticks w)) posts w1) as H;
      simpl in H; destruct (for_each posts f w1) as [[a|x] w2]
  end; simpl in *.
  - destruct H as (Hc & Ht & Hn & H). repeat split; auto.
    destruct (batch_ok e (statements w) posts).
    + destruct H as [_ H]. split; [destruct a; reflexivity|].
      unfold commit. rewrite H. reflexivity.
    + destruct H as [x H]. discriminate.
  - destruct H as (Hc & Ht & Hn & H). repeat split; auto.
    destruct (batch_ok e (statements w) posts).
    + destruct H as [H _]. discriminate.
    + split; [eauto|]. unfold rollback. rewrite Hc. reflexivity.
Qed.

(** A batch without a failing statement, started outside a transaction. *)
Lemma upsert_posts_committed (e : env) (posts : list post) (w : world) :
  transaction (db w) = None ->
  batch_ok e (statements w) posts = true ->
  fst (upsert_posts e posts w) = Ok tt
  /\ transaction (db (snd (upsert_posts e posts w))) = None
  /\ committed (db (snd (upsert_posts e posts w)))
     = upsert_all (clock e (ticks w)) posts (committed (db w)).
Proof.
  intros Ht Hok.
  pose proof (upsert_posts_run e posts w) as H. simpl in H.
  rewrite Hok in H. destruct H as (_ & _ & Hr & Hd).
  rewrite Hd. simpl. unfold current. rewrite Ht. auto.
Qed.

(** ** The claims on the store *)

Lemma do_update_merged (old : row) (p : post) (now : pystr) :
  row_id old = post_id p ->
  do_update old (excluded p now) = merged old p now.
Proof.
  intros H. unfold do_update, merged. simpl. rewrite H.
  destruct (post_time_posted p); reflexivity.
Qed.

(** C1.  An upsert of a record whose id is already in the table sets the
    stored [time_posted] to the record's when that is not null and leaves
    it otherwise, and overwrites [title], [url], [user], [points] and
    [scraped_at] with the record's values and the timestamp of the run:
    for the statement of line 147 in any state of the connection, and for
    a run of [upsert_posts] on the record, whose timestamp is the reading
    of the clock at its start. *)
Theorem upsert_existing_row (e : env) (p : post) (now_iso : pystr)
  (w : world) (old : row) :
  select_by_id (current (db w)) (post_id p) = Some old ->
  bindable p = true ->
  storage_fault e (statements w) = false ->
  (let r := execute e p now_iso w in
   fst r = Ok tt
   /\ select_by_id (current (db (snd r))) (post_id p)
      = Some (merged old p now_iso))
  /\ (let r := upsert_posts e [p] w in
      fst r = Ok tt
      /\ select_by_id (committed (db (snd r))) (post_id p)
         = Some (merged old p (clock e (ticks w)))).
Proof.
  intros Hold Hb Hf.
  assert (Hid : row_id old = post_id p).
  { apply find_some in Hold. destruct Hold as [_ H].
    apply Z.eqb_eq in H. exact H. }
  split.
  - unfold execute. rewrite Hb, Hf. simpl. split; [reflexivity|].
    change (select_by_id
              (insert_on_conflict (current (db w)) (excluded p now_iso))
              (post_id p) = Some (merged old p now_iso)).
    rewrite select_by_id_insert. simpl. rewrite Z.eqb_refl, Hold.
    f_equal. apply do_update_merged, Hid.
  - pose proof (upsert_posts_run e [p] w) as H. simpl in H.
    rewrite Hb, Hf in H. simpl in H.
    destruct H as (_ & _ & Hr & Hd). split; [exact Hr|].
    rewrite Hd. simpl.
    rewrite select_by_id_insert. simpl. rewrite Z.eqb_refl, Hold.
    f_equal. apply do_update_merged, Hid.
Qed.

Lemma upsert_existing_row_witness :
  (let r := execute (online []) (example_post 1 "new title" 11 None)
              (u "t0") (start one_post_db) in
   fst r = Ok tt
   /\ select_by_id (current (db (snd r))) 1
      = Some (merged stored_post (example_post 1 "new title" 11 None) (u "t0")))
  /\ (let r := upsert_posts (online []) [example_post 1 "new title" 11 None]
                 (start one_post_db) in
      fst r = Ok tt
      /\ select_by_id (committed (db (snd r))) 1
         = Some (merged stored_post (example_post 1 "new title" 11 None)
                   (example_clock 0))).
Proof.
  apply (upsert_existing_row (online []) (example_post 1 "new title" 11 None)
           (u "t0") (start one_post_db) stored_post); reflexivity.
Defined.

(** C3.  The upserts of a batch are one transaction: when a write of the
    batch fails (a parameter that does not fit a 64-bit integer, or a
    fault of the storage layer) [upsert_posts] raises and the table is as
    it was before the batch, and otherwise every record of the batch has
    been applied, in order, and committed. *)
Theorem upsert_posts_atomic (e : env) (posts : list post) (w : world) :
  transaction (db w) = None ->
  let r := upsert_posts e posts w in
  transaction (db (snd r)) = None
  /\ if batch_ok e (statements w) posts
     then fst r = Ok tt
          /\ committed (db (snd r))
             = upsert_all (clock e (ticks w)) posts (committed (db w))
     else (exists x, fst r = Raise x)
          /\ committed (db (snd r)) = committed (db w).
Proof.
  intros Ht r. subst r.
  pose proof (upsert_posts_run e posts w) as H. simpl in H.
  destruct H as (_ & _ & H).
  destruct (batch_ok e (statements w) posts).
  - destruct H as [Hr Hd]. rewrite Hd. simpl.
    unfold current. rewrite Ht. auto.
  - destruct H as [Hr Hd]. rewrite Hd. simpl. auto.
Qed.

Lemma upsert_posts_atomic_witness :
  let r := upsert_posts (online [])
             [example_post 2 "a" 3 None; example_post 3 "b" (2 ^ 63) None]
             (start one_post_db) in
  transaction (db (snd r)) = None
  /\ ((exists x, fst r = Raise x)
      /\ committed (db (snd r)) = [stored_post]).
Proof.
  apply (upsert_posts_atomic (online [])
           [example_post 2 "a" 3 None; example_post 3 "b" (2 ^ 63) None]
           (start one_post_db)).
  reflexivity.
Defined.

(** C4.  Upserting the same records twice leaves one row for each of
    their ids, and the second upsert updates that row where it is.  The
    second [upsert_posts] adds no row to the table and moves none: the
    ids of the table are, one by one, what the first one left.  For each
    record of the batch (in particular the record of a batch of one) the
    table has exactly one row with its id after the first run and after
    the second; that row holds the [title], [url], [user] and [points] of
    the last record of the batch with that id, and the second run changes
    it in one column only: [scraped_at], from the timestamp of the first
    run to that of the second. *)
Theorem upsert_twice_one_row (e1 e2 : env) (posts : list post) (w : world) :
  transaction (db w) = None ->
  primary_key (committed (db w)) ->
  batch_ok e1 (statements w) posts = true ->
  batch_ok e2 (statements (snd (upsert_posts e1 posts w))) posts = true ->
  let w1 := snd (upsert_posts e1 posts w) in
  let r2 := upsert_posts e2 posts w1 in
  fst r2 = Ok tt
  /\ map row_id (committed (db (snd r2))) = map row_id (committed (db w1))
  /\ List.length (committed (db (snd r2))) = List.length (committed (db w1))
  /\ forall p, In p posts ->
       count_id (post_id p) (committed (db w1)) = 1%nat
       /\ count_id (post_id p) (committed (db (snd r2))) = 1%nat
       /\ exists last_record first second,
            last_with_id (post_id p) posts = Some last_record
            /\ select_by_id (committed (db w1)) (post_id p) = Some first
            /\ select_by_id (committed (db (snd r2))) (post_id p)
               = Some second
            /\ row_title first = post_title last_record
            /\ row_url first = Some (post_url last_record)
            /\ row_user first = post_user last_record
            /\ row_points first = Some (post_points last_record)
            /\ row_scraped_at first = clock e1 (ticks w)
            /\ second
               = {| row_id := row_id first;
                    row_title := row_title first;
                    row_url := row_url first;
                    row_user := row_user first;
                    row_points := row_points first;
                    row_time_posted := row_time_posted first;
                    row_scraped_at := clock e2 (ticks w1) |}.
Proof.
  intros Ht Hk H1 H2 w1 r2.
  destruct (upsert_posts_committed e1 posts w Ht H1) as (_ & Ht1 & Hc1).
  destruct (upsert_posts_committed e2 posts w1 Ht1 H2) as (Hr2 & _ & Hc2).
  fold r2 in Hr2, Hc2.
  set (t := committed (db w)) in *.
  set (t1 := committed (db w1)) in *.
  assert (Hk1 : primary_key t1).
  { unfold t1, w1. rewrite Hc1. apply upsert_all_primary_key, Hk. }
  assert (Hin1 : forall p, In p posts -> In (post_id p) (map row_id t1)).
  { intros p Hp. unfold t1, w1. rewrite Hc1. apply upsert_all_ids_in, Hp. }
  assert (Hids : map row_id (committed (db (snd r2))) = map row_id t1).
  { rewrite Hc2. apply upsert_all_ids_present, Hin1. }
  split; [exact Hr2|]. split; [exact Hids|]. split.
  - rewrite <- (length_map row_id), Hids. apply length_map.
  - intros p Hp. split; [|split].
    + apply count_id_primary_key; [exact Hk1 | apply Hin1, Hp].
    + apply count_id_primary_key.
      * unfold primary_key. rewrite Hids. exact Hk1.
      * rewrite Hids. apply Hin1, Hp.
    + destruct (last_with_id_in posts p Hp) as [pl Hpl].
      destruct (select_by_id_upsert_all (clock e1 (ticks w)) posts t
                  (post_id p) pl Hpl)
        as (first & Hs1 & Hi1 & Htitle1 & Hurl1 & Huser1 & Hpoints1 & Hat1).
      destruct (select_by_id_upsert_all (clock e2 (ticks w1)) posts t1
                  (post_id p) pl Hpl)
        as (second & Hs2 & Hi2 & Htitle2 & Hurl2 & Huser2 & Hpoints2 & Hat2).
      pose proof (stored_time_posted_upsert_all (clock e1 (ticks w)) posts t
                    (post_id p)) as Htime1.
      pose proof (stored_time_posted_upsert_all (clock e2 (ticks w1)) posts t1
                    (post_id p)) as Htime2.
      assert (Ht1' : t1 = upsert_all (clock e1 (ticks w)) posts t)
        by (unfold t1, w1; exact Hc1).
      rewrite <- Ht1' in Hs1, Htime1.
      unfold stored_time_posted at 1 in Htime1. rewrite Hs1 in Htime1.
      unfold stored_time_posted in Htime2. rewrite Hs2, Hs1 in Htime2.
      exists pl, first, second. rewrite Hc2.
      repeat (split; [assumption|]).
      destruct second, first; simpl in *. subst. f_equal.
      destruct (last_time_posted (post_id p) posts); reflexivity.
Qed.

Lemma upsert_twice_one_row_witness :
  let posts := [example_post 1 "new title" 11 None; example_post 2 "b" 3 None] in
  let w1 := snd (upsert_posts (online []) posts (start one_post_db)) in
  let r2 := upsert_posts (online []) posts w1 in
  fst r2 = Ok tt
  /\ map row_id (committed (db (snd r2))) = map row_id (committed (db w1))
  /\ List.length (committed (db (snd r2))) = List.length (committed (db w1))
  /\ forall p, In p posts ->
       count_id (post_id p) (committed (db w1)) = 1%nat
       /\ count_id (post_id p) (committed (db (snd r2))) = 1%nat
       /\ exists last_record first second,
            last_with_id (post_id p) posts = Some last_record
            /\ select_by_id (committed (db w1)) (post_id p) = Some first
            /\ select_by_id (committed (db (snd r2))) (post_id p)
               = Some second
            /\ row_title first = post_title last_record
            /\ row_url first = Some (post_url last_record)
            /\ row_user first = post_user last_record
            /\ row_points first = Some (post_points last_record)
            /\ row_scraped_at first = example_clock 0
            /\ second
               = {| row_id := row_id first;
                    row_title := row_title first;
                    row_url := row_url first;
                    row_user := row_user first;
                    row_points := row_points first;
                    row_time_posted := row_time_posted first;
                    row_scraped_at := example_clock 1 |}.
Proof.
  apply (upsert_twice_one_row (online []) (online [])
           [example_post 1 "new title" 11 None; example_post 2 "b" 3 None]
           (start one_post_db)).
  - reflexivity.
  - repeat constructor; simpl; tauto.
  - reflexivity.
  - reflexivity.
Defined.

(** What the two runs of the witness leave for the id that was in the
    table: the stored [time_posted], the values of the record, and the
    timestamp of each run. *)
Example upsert_twice_rows :
  let posts := [example_post 1 "new title" 11 None; example_post 2 "b" 3 None] in
  let w1 := snd (upsert_posts (online []) posts (start one_post_db)) in
  let w2 := snd (upsert_posts (online []) posts w1) in
  select_by_id (committed (db w1)) 1
  = Some (merged stored_post (example_post 1 "new title" 11 None)
            (example_clock 0))
  /\ select_by_id (committed (db w2)) 1
     = Some (merged stored_post (example_post 1 "new title" 11 None)
               (example_clock 1))
  /\ example_clock 0 <> example_clock 1.
Proof. repeat split. discriminate. Qed.

(** C9.  One call of [upsert_posts] reads the clock once, before the
    batch, and every record of the batch is written with that reading as
    its [scraped_at]. *)
Theorem upsert_posts_one_timestamp (e : env) (posts : list post) (w : world) :
  batch_ok e (statements w) posts = true ->
  let r := upsert_posts e posts w in
  fst r = Ok tt
  /\ ticks (snd r) = S (ticks w)
  /\ forall p, In p posts ->
       exists written,
         select_by_id (committed (db (snd r))) (post_id p) = Some written
         /\ row_scraped_at written = clock e (ticks w).
Proof.
  intros Hok r. subst r.
  pose proof (upsert_posts_run e posts w) as H. simpl in H.
  rewrite Hok in H. destruct H as (Hticks & _ & Hr & Hd).
  split; [exact Hr|]. split; [exact Hticks|].
  intros p Hp. rewrite Hd. simpl.
  pose proof (last_with_id_in posts p Hp) as Hlast.
  destruct Hlast as [pl Hpl].
  destruct (select_by_id_upsert_all (clock e (ticks w)) posts
              (current (db w)) (post_id p) pl Hpl)
    as (written & Hsel & _ & _ & _ & _ & _ & Hat).
  exists written. auto.
Qed.

Lemma upsert_posts_one_timestamp_witness :
  let posts := [example_post 1 "new title" 11 None; example_post 2 "b" 3 None] in
  let r := upsert_posts (online []) posts (start one_post_db) in
  fst r = Ok tt
  /\ ticks (snd r) = 1%nat
  /\ forall p, In p posts ->
       exists written,
         select_by_id (committed (db (snd r))) (post_id p) = Some written
         /\ row_scraped_at written = example_clock 0.
Proof.
  apply (upsert_posts_one_timestamp (online [])
           [example_post 1 "new title" 11 None; example_post 2 "b" 3 None]
           (start one_post_db)).
  reflexivity.
Defined.

(** C10.  When the batch holds several records with one id, the row of
    that id after [upsert_posts] has the [title], [url], [user] and
    [points] of the last of them, and its [time_posted] is the last one
    among them that is not null, or what the table held before the batch
    when all of them are null: the records are applied one after the
    other with the merge rule. *)
Theorem upsert_posts_duplicate_ids (e : env) (posts : list post) (w : world)
  (i : Z) (last_record : post) :
  transaction (db w) = None ->
  batch_ok e (statements w) posts = true ->
  last_with_id i posts = Some last_record ->
  let r := upsert_posts e posts w in
  fst r = Ok tt
  /\ committed (db (snd r))
     = upsert_all (clock e (ticks w)) posts (committed (db w))
  /\ exists stored,
       select_by_id (committed (db (snd r))) i = Some stored
       /\ row_title stored = post_title last_record
       /\ row_url stored = Some (post_url last_record)
       /\ row_user stored = post_user last_record
       /\ row_points stored = Some (post_points last_record)
       /\ row_time_posted stored
          = match last_time_posted i posts with
            | Some time_posted => Some time_posted
            | None => stored_time_posted (committed (db w)) i
            end.
Proof.
  intros Ht Hok Hlast r. subst r.
  destruct (upsert_posts_committed e posts w Ht Hok) as (Hr & _ & Hc).
  split; [exact Hr|]. split; [exact Hc|]. rewrite Hc.
  destruct (select_by_id_upsert_all (clock e (ticks w)) posts
              (committed (db w)) i last_record Hlast)
    as (stored & Hsel & _ & Htitle & Hurl & Huser & Hpoints & _).
  exists stored. repeat (split; [assumption|]).
  pose proof (stored_time_posted_upsert_all (clock e (ticks w)) posts
                (committed (db w)) i) as Htime.
  unfold stored_time_posted at 1 in Htime. rewrite Hsel in Htime.
  rewrite Htime. destruct (last_time_posted i posts); reflexivity.
Qed.

Lemma upsert_posts_duplicate_ids_witness :
  let posts := [example_post 1 "first" 11 (Some (u "2024-02-02T00:00:00Z"));
                example_post 2 "other" 3 None;
                example_post 1 "second" 12 None] in
  let r := upsert_posts (online []) posts (start one_post_db) in
  fst r = Ok tt
  /\ committed (db (snd r)) = upsert_all (example_clock 0) posts [stored_post]
  /\ exists stored,
       select_by_id (committed (db (snd r))) 1 = Some stored
       /\ row_title stored = u "second"
       /\ row_url stored = Some (u "https://example.com/")
       /\ row_user stored = Some (u "alice")
       /\ row_points stored = Some 12
       /\ row_time_posted stored = Some (u "2024-02-02T00:00:00Z").
Proof.
  apply (upsert_posts_duplicate_ids (online [])
           [example_post 1 "first" 11 (Some (u "2024-02-02T00:00:00Z"));
            example_post 2 "other" 3 None;
            example_post 1 "second" 12 None]
           (start one_post_db) 1 (example_post 1 "second" 12 None));
    reflexivity.
Defined.

(** ** The extractor *)

Section ExtractorProperties.
Context {B : Builtins}.

(** [parse_posts] is [parse_soup] on the document of the markup. *)
Lemma parse_posts_soup {P : HtmlParser} (html : pystr) (soup : node) :
  BeautifulSoup html = Ok soup -> parse_posts html = parse_soup soup.
Proof. intros H. unfold parse_posts. rewrite H. reflexivity. Qed.

(** What a row that gives a record looks like. *)
Lemma parse_row_some (row : located) (p : post) :
  parse_row row = Ok (Some p) ->
  row_post_id row = Some (post_id p)
  /\ 0 < post_id p
  /\ post_title p = anchor_title (row_anchor row)
  /\ post_title p <> []
  /\ post_url p = anchor_url (row_anchor row).
Proof.
  unfold parse_row, bind.
  destruct (subtext_fields _) as [[[user points] time_posted]|x];
    [|discriminate].
  destruct (row_post_id row) as [i|]; [|discriminate].
  destruct (i <=? 0) eqn:Hi; simpl; [discriminate|].
  destruct (is_empty (anchor_title (row_anchor row))) eqn:Ht;
    [discriminate|].
  intros [= <-]. simpl. apply Z.leb_gt in Hi.
  repeat split; auto.
  intros E. rewrite E in Ht. discriminate.
Qed.

Lemma kept_false_no_record (row : located) :
  kept row = false -> records_of row = [].
Proof.
  unfold records_of. intros Hk.
  destruct (parse_row row) as [[p|]|x] eqn:E; try reflexivity.
  apply parse_row_some in E.
  destruct E as (Hid & Hpos & Htitle & Hne & _).
  unfold kept in Hk. rewrite Hid, <- Htitle in Hk.
  apply Z.ltb_lt in Hpos. rewrite Hpos in Hk.
  destruct (post_title p); [congruence | discriminate].
Qed.

Lemma parse_rows_ok (rows : list located) (posts : list post) :
  parse_rows rows = Ok posts -> posts = flat_map records_of rows.
Proof.
  revert posts; induction rows as [|row rows IH]; intros posts; simpl.
  - intros [= <-]. reflexivity.
  - unfold bind, records_of.
    destruct (parse_row row) as [o|x]; [|discriminate].
    destruct (parse_rows rows) as [ps|x]; [|discriminate].
    intros [= <-]. rewrite (IH ps eq_refl).
    destruct o; reflexivity.
Qed.

Lemma records_of_valid (row : located) :
  Forall (fun p => 0 < post_id p /\ post_title p <> []) (records_of row).
Proof.
  unfold records_of.
  destruct (parse_row row) as [[p|]|x] eqn:E; constructor; [|constructor].
  apply parse_row_some in E. tauto.
Qed.

(** C2.  The records [parse_posts] returns, whatever the document of
    the markup is, are those of the item rows in document order; each has
    an id that is a positive integer and a title that is not empty, and an
    item row whose identifier is missing, not numeric or not positive, or
    whose title is empty, gives no record. *)
Theorem parse_posts_discard_rule (soup : node) (posts : list post) :
  parse_soup soup = Ok posts ->
  posts = flat_map records_of (select tr_athing (document soup))
  /\ Forall (fun p => 0 < post_id p /\ post_title p <> []) posts
  /\ forall row, kept row = false -> records_of row = [].
Proof.
  unfold parse_soup. intros H. apply parse_rows_ok in H.
  split; [exact H|]. split.
  - rewrite H. apply Forall_flat_map, Forall_forall.
    intros row _. apply records_of_valid.
  - exact kept_false_no_record.
Qed.

(** C6.  The url of a record is the empty string when the row has no
    link element; with one, it is the link target after the origin of
    the site when the target begins with [item?id=], and the target
    unchanged otherwise.  The store holds it as it is. *)
Theorem url_normalization (row : located) (p : post) :
  parse_row row = Ok (Some p) ->
  match row_anchor row with
  | None => post_url p = []
  | Some a =>
      let link := match attr a (u "href") with
                  | Some target => target
                  | None => []
                  end in
      (forall rest, link = u "item?id=" ++ rest ->
         post_url p = u "https://news.ycombinator.com/item?id=" ++ rest)
      /\ ((forall rest, link <> u "item?id=" ++ rest) -> post_url p = link)
  end
  /\ forall t now, exists stored,
       select_by_id (insert_on_conflict t (excluded p now)) (post_id p)
       = Some stored
       /\ row_url stored = Some (post_url p).
Proof.
  intros H. apply parse_row_some in H.
  destruct H as (_ & _ & _ & _ & Hurl). split.
  - rewrite Hurl. unfold anchor_url.
    destruct (row_anchor row) as [a|]; [|reflexivity].
    cbv zeta. set (link := match attr a (u "href") with
                           | Some v => v
                           | None => []
                           end).
    destruct (startswith (u "item?id=") link) eqn:E.
    + split.
      * intros rest ->. reflexivity.
      * intros Hno. apply startswith_app in E. destruct E as [rest E].
        elim (Hno rest E).
    + split.
      * intros rest Hl.
        assert (startswith (u "item?id=") link = true)
          by (apply startswith_app; eauto).
        congruence.
      * reflexivity.
  - intros t now. rewrite select_by_id_insert. simpl.
    rewrite Z.eqb_refl.
    destruct (select_by_id t (post_id p)); eexists; split; reflexivity.
Qed.

Lemma subtext_of_absent (row : located) (sibs : list node) :
  (forall sib, In sib sibs -> is_tr sib = true ->
     select td_subtext (beside row sib) = []) ->
  subtext_of (ancestors row) sibs = None.
Proof.
  induction sibs as [|sib sibs IH]; intros H; simpl; [reflexivity|].
  destruct sib as [k s|h cs].
  - apply IH. intros sib Hin. apply H. right; exact Hin.
  - destruct (str_eqb (name h) (u "tr")) eqn:E.
    + unfold select_one.
      change (select td_subtext
                {| ancestors := ancestors row; here := Tag h cs;
                   next_siblings := sibs |})
        with (select td_subtext (beside row (Tag h cs))).
      rewrite (H (Tag h cs)); [reflexivity | left; reflexivity | exact E].
    + apply IH. intros sib Hin. apply H. right; exact Hin.
Qed.

(** C7.  When no row after an item row, among its siblings, holds a
    subtext cell, the row raises nothing, and it gives its record as
    soon as its id and title are valid, with no user, 0 points and no
    [time_posted]. *)
Theorem subtext_absent_defaults (row : located) :
  (forall sib, In sib (next_siblings row) -> is_tr sib = true ->
     select td_subtext (beside row sib) = []) ->
  (exists o, parse_row row = Ok o)
  /\ forall i,
       row_post_id row = Some i ->
       0 < i ->
       anchor_title (row_anchor row) <> [] ->
       parse_row row =
       Ok (Some {| post_id := i;
                   post_title := anchor_title (row_anchor row);
                   post_url := anchor_url (row_anchor row);
                   post_user := None;
                   post_points := 0;
                   post_time_posted := None |}).
Proof.
  intros H. apply subtext_of_absent in H.
  unfold parse_row. rewrite H. simpl. split.
  - destruct (row_post_id row) as [i|]; [|eauto].
    destruct ((i <=? 0) || is_empty (anchor_title (row_anchor row))); eauto.
  - intros i -> Hi Ht.
    apply Z.leb_gt in Hi. rewrite Hi. simpl.
    destruct (anchor_title (row_anchor row)); [congruence | reflexivity].
Qed.

End ExtractorProperties.

(** ** The extractor on the example documents *)

Lemma parse_posts_discard_rule_witness :
  let posts := [ {| post_id := 123;
                    post_title := u "Example";
                    post_url := u "https://news.ycombinator.com/item?id=123";
                    post_user := Some (u "alice");
                    post_points := 456;
                    post_time_posted := Some (u "2024-01-01T00:00:00Z") |} ] in
  posts = flat_map (records_of (B := Latin1.builtins))
            (select tr_athing (document example_page))
  /\ Forall (fun p => 0 < post_id p /\ post_title p <> []) posts
  /\ forall row, kept (B := Latin1.builtins) row = false ->
                 records_of (B := Latin1.builtins) row = [].
Proof.
  apply (parse_posts_discard_rule (B := Latin1.builtins) example_page).
  reflexivity.
Defined.

Lemma url_normalization_witness :
  let p := {| post_id := 42;
              post_title := u "Bare";
              post_url := u "https://news.ycombinator.com/item?id=42";
              post_user := None;
              post_points := 0;
              post_time_posted := None |} in
  match row_anchor (first_row bare_page) with
  | None => post_url p = []
  | Some a =>
      let link := match attr a (u "href") with
                  | Some target => target
                  | None => []
                  end in
      (forall rest, link = u "item?id=" ++ rest ->
         post_url p = u "https://news.ycombinator.com/item?id=" ++ rest)
      /\ ((forall rest, link <> u "item?id=" ++ rest) -> post_url p = link)
  end
  /\ forall t now, exists stored,
       select_by_id (insert_on_conflict t (excluded p now)) (post_id p)
       = Some stored
       /\ row_url stored = Some (post_url p).
Proof.
  apply (url_normalization (B := Latin1.builtins) (first_row bare_page)).
  reflexivity.
Defined.

Lemma subtext_absent_defaults_witness :
  parse_row (B := Latin1.builtins) (first_row bare_page) =
  Ok (Some {| post_id := 42;
              post_title := u "Bare";
              post_url := u "https://news.ycombinator.com/item?id=42";
              post_user := None;
              post_points := 0;
              post_time_posted := None |}).
Proof.
  refine (proj2 (subtext_absent_defaults (B := Latin1.builtins)
                   (first_row bare_page) _) 42 _ _ _).
  - intros sib Hin Htr. simpl in Hin.
    destruct Hin as [<-|[]]. reflexivity.
  - reflexivity.
  - lia.
  - discriminate.
Defined.

(** The score texts of the specification. *)
Example points_1234 :
  points_of_text (B := Latin1.builtins) (u "1234 points") = Ok 1234.
Proof. reflexivity. Qed.

Example points_no_digits :
  points_of_text (B := Latin1.builtins) (u "no points") = Ok 0.
Proof. reflexivity. Qed.

Example points_thousands_separator :
  points_of_text (B := Latin1.builtins) (u "1,234 points") = Ok 1234.
Proof. reflexivity. Qed.

Lemma digits_value_decimal (ds : pystr) :
  forall acc after_digit,
    forallb decimal_digit ds = true ->
    ds <> [] \/ after_digit = true ->
    Latin1.digits_value acc after_digit ds
    = Some (fold_left (fun a c => 10 * a + (Z.of_N c - 48)) ds acc).
Proof.
  induction ds as [|c ds IH]; intros acc after_digit Hall Hne; simpl.
  - destruct Hne as [Hne| ->]; [congruence | reflexivity].
  - simpl in Hall. apply andb_true_iff in Hall. destruct Hall as [Hc Hall].
    unfold decimal_digit in Hc. unfold Latin1.between. rewrite Hc.
    apply IH; auto.
Qed.

Lemma skip_spaces_decimal (c : N) (s : pystr) :
  decimal_digit c = true -> Latin1.skip_spaces (c :: s) = c :: s.
Proof.
  intros Hc. simpl.
  replace (Latin1.int_space c) with false; [reflexivity|].
  unfold decimal_digit in Hc. apply andb_true_iff in Hc.
  destruct Hc as [Hlo Hhi]. apply N.leb_le in Hlo, Hhi.
  unfold Latin1.int_space, Latin1.between. symmetry.
  repeat (apply orb_false_iff; split);
    try (apply andb_false_iff; right; apply N.leb_gt; lia);
    apply N.eqb_neq; lia.
Qed.

(** [int] on a string of decimal digits that is not empty. *)
Lemma int_decimal (ds : pystr) :
  forallb decimal_digit ds = true -> ds <> [] ->
  Latin1.int ds = Some (decimal_value ds).
Proof.
  intros Hall Hne. unfold Latin1.int.
  destruct ds as [|c ds]; [congruence|].
  assert (Hc : decimal_digit c = true)
    by (simpl in Hall; apply andb_true_iff in Hall; tauto).
  rewrite skip_spaces_decimal by exact Hc.
  assert (Hrev : forallb decimal_digit (rev (c :: ds)) = true).
  { rewrite forallb_forall in *. intros x Hx. apply Hall.
    apply in_rev. exact Hx. }
  destruct (rev (c :: ds)) as [|l body] eqn:E.
  { apply (f_equal (@List.length N)) in E. rewrite length_rev in E.
    discriminate. }
  rewrite skip_spaces_decimal
    by (simpl in Hrev; apply andb_true_iff in Hrev; tauto).
  rewrite <- E, rev_involutive.
  replace (N.eqb c 43) with false; [replace (N.eqb c 45) with false|].
  - apply digits_value_decimal; [exact Hall | left; discriminate].
  - symmetry. unfold decimal_digit in Hc. apply andb_true_iff in Hc.
    destruct Hc as [Hlo _]. apply N.leb_le in Hlo. apply N.eqb_neq. lia.
  - symmetry. unfold decimal_digit in Hc. apply andb_true_iff in Hc.
    destruct Hc as [Hlo _]. apply N.leb_le in Hlo. apply N.eqb_neq. lia.
Qed.

(** On Latin-1 text without a superscript digit the points are the
    integer its decimal digits denote, in order, and 0 without a digit. *)
Lemma points_of_text_decimal (score_text : pystr) :
  forallb (fun c => negb (superscript_digit c)) score_text = true ->
  points_of_text (B := Latin1.builtins) score_text
  = Ok (decimal_value (filter decimal_digit score_text)).
Proof.
  intros Hsup. unfold points_of_text. simpl.
  assert (E : filter Latin1.digit score_text = filter decimal_digit score_text).
  { apply filter_ext_in. intros c Hc.
    rewrite forallb_forall in Hsup. specialize (Hsup c Hc).
    apply negb_true_iff in Hsup. unfold superscript_digit in Hsup.
    apply orb_false_iff in Hsup. destruct Hsup as [Hsup H3].
    apply orb_false_iff in Hsup. destruct Hsup as [H1 H2].
    unfold Latin1.digit, Latin1.between, decimal_digit.
    rewrite H1, H2, H3, !orb_false_r. reflexivity. }
  rewrite E.
  destruct (filter decimal_digit score_text) as [|c ds] eqn:F; [reflexivity|].
  simpl is_empty. cbv iota.
  rewrite int_decimal; [reflexivity | | discriminate].
  rewrite <- F. apply forallb_forall. intros x Hx.
  apply filter_In in Hx. tauto.
Qed.

(** C5, where the code leaves it.  [str.isdigit] holds of the
    superscript two, which [int] does not accept: on the score text
    "5² points" the digits kept are "5²", [int] raises [ValueError],
    no points value is extracted and [parse_posts] raises on the whole
    page. *)
Theorem points_superscript_raises :
  filter Latin1.digit superscript_score = [53; 178]%N
  /\ points_of_text (B := Latin1.builtins) superscript_score
     = Raise ValueError
  /\ parse_soup (B := Latin1.builtins) superscript_page = Raise ValueError.
Proof. repeat split. Qed.

(** ** The run *)

Section MainProperties.
Context {B : Builtins} {P : HtmlParser}.

Lemma get_html_conn (e : env) (w : world) :
  conn (snd (get_html e w)) = conn w.
Proof.
  unfold get_html, try_except, lift. destruct (fetch e); simpl;
    [reflexivity|].
  unfold mbind, stderr_write, modify. simpl.
  destruct (dummy_html e); reflexivity.
Qed.

(** [conn.close()] is the last statement of the [try] block: a run that
    returns 0 has closed the connection, and a run that returns 1 has
    left it open. *)
Lemma main_exit_status (e : env) (w : world) :
  let r := main e w in
  (fst r = Ok 0 /\ conn (snd r) = Closed)
  \/ (fst r = Ok 1 /\ conn (snd r) = Open).
Proof.
  unfold main, try_except, mbind, connect, ensure_db, modify, lift. simpl.
  match goal with
  | |- context [get_html e ?w1] =>
      pose proof (get_html_conn e w1) as Hg;
      destruct (get_html e w1) as [[html|x] w2]
  end; simpl in *; [|right; auto].
  destruct (parse_posts html) as [posts|x]; simpl; [|right; auto].
  assert (Hw : exists w3,
             (if is_nil posts then stderr_write NoPostsParsed else ret tt) w2
             = (Ok tt, w3) /\ conn w3 = Open).
  { destruct (is_nil posts); eexists; (split; [reflexivity | exact Hg]). }
  destruct Hw as (w3 & -> & Hc).
  pose proof (upsert_posts_run e posts w3) as Hu. cbv zeta in Hu.
  destruct Hu as (_ & Hconn & _).
  destruct (upsert_posts e posts w3) as [[[]|x] w5]; simpl in *.
  - left; split; reflexivity.
  - right; split; [reflexivity | congruence].
Qed.

(** C8, where the code leaves it.  When the request fails and there is
    no snapshot file, [get_html] raises, [main] catches the exception
    and returns 1, and the connection it opened is still open:
    [conn.close()] is skipped. *)
Theorem main_failure_leaves_connection_open (d : database) :
  let r := main offline_no_snapshot (start d) in
  fst r = Ok 1
  /\ conn (snd r) = Open
  /\ stderr (snd r) = [FetchFailed RequestException; ScrapeFailed OSError].
Proof. repeat split. Qed.

End MainProperties.

(** The same on a page the extractor raises on, and a run that succeeds. *)
Example main_superscript_page :
  let P : HtmlParser := fun _ => Ok superscript_page in
  let r := main (B := Latin1.builtins) (online []) (start empty_db) in
  fst r = Ok 1 /\ conn (snd r) = Open /\ committed (db (snd r)) = [].
Proof. repeat split. Qed.

Example main_example_page :
  let P : HtmlParser := fun _ => Ok example_page in
  let r := main (B := Latin1.builtins) (online []) (start empty_db) in
  fst r = Ok 0
  /\ conn (snd r) = Closed
  /\ map row_id (committed (db (snd r))) = [123]
  /\ stdout (snd r) = [Upserted 1 (example_clock 1)].
Proof. repeat split. Qed.


(** * Further properties *)

(** ** The statement and the batch *)

Lemma ids_insert_iff (t : table) (x : row) (i : Z) :
  In i (map row_id (insert_on_conflict t x))
  <-> i = row_id x \/ In i (map row_id t).
Proof.
  destruct (in_dec Z.eq_dec (row_id x) (map row_id t)) as [H|H].
  - rewrite ids_insert_present by assumption.
    split; [tauto | intros [->|Hi]; assumption].
  - rewrite ids_insert_absent by assumption. rewrite in_app_iff. simpl.
    split; [intros [Hi|[<-|[]]]; auto | intros [->|Hi]; auto].
Qed.

Lemma ids_upsert_all_iff (now : pystr) (posts : list post) (t : table) (i : Z) :
  In i (map row_id (upsert_all now posts t))
  <-> In i (map row_id t) \/ In i (map post_id posts).
Proof.
  revert t; induction posts as [|p posts IH]; intros t; simpl; [tauto|].
  rewrite IH, ids_insert_iff. simpl. intuition congruence.
Qed.

Lemma insert_absent (t : table) (x : row) :
  select_by_id t (row_id x) = None -> insert_on_conflict t x = t ++ [x].
Proof.
  unfold select_by_id.
  induction t as [|r t IH]; simpl; [reflexivity|].
  destruct (row_id r =? row_id x); [discriminate|].
  intros H. f_equal. apply IH, H.
Qed.

Lemma last_with_id_none (i : Z) (posts : list post) :
  last_with_id i posts = None <-> forall p, In p posts -> post_id p <> i.
Proof.
  unfold last_with_id. split.
  - intros H p Hp E.
    pose proof (find_none _ _ H p) as N. simpl in N.
    rewrite in_rev in Hp. specialize (N Hp).
    apply Z.eqb_neq in N. contradiction.
  - intros H.
    destruct (find (fun p => post_id p =? i) (rev posts)) as [p|] eqn:E;
      [|reflexivity].
    apply find_some in E. destruct E as [Hp E].
    apply Z.eqb_eq in E. rewrite <- in_rev in Hp. elim (H p Hp E).
Qed.

Lemma select_by_id_untouched (now : pystr) (posts : list post) (t : table)
  (i : Z) :
  (forall p, In p posts -> post_id p <> i) ->
  select_by_id (upsert_all now posts t) i = select_by_id t i.
Proof.
  revert t; induction posts as [|p posts IH]; intros t H; simpl;
    [reflexivity|].
  rewrite IH by (intros q Hq; apply H; right; exact Hq).
  rewrite select_by_id_insert. simpl.
  destruct (post_id p =? i) eqn:E; [|reflexivity].
  apply Z.eqb_eq in E. elim (H p (or_introl eq_refl) E).
Qed.

(** The row of every id after a batch, in closed form. *)
Lemma select_by_id_row_after (now : pystr) (posts : list post) (t : table)
  (i : Z) :
  select_by_id (upsert_all now posts t) i = row_after now posts t i.
Proof.
  unfold row_after.
  destruct (last_with_id i posts) as [pl|] eqn:E.
  - destruct (select_by_id_upsert_all now posts t i pl E)
      as (r & Hsel & Hid & Htitle & Hurl & Huser & Hpoints & Hat).
    pose proof (stored_time_posted_upsert_all now posts t i) as Htime.
    unfold stored_time_posted at 1 in Htime. rewrite Hsel in Htime.
    rewrite Hsel. f_equal. destruct r; simpl in *. congruence.
  - apply select_by_id_untouched, last_with_id_none, E.
Qed.

(** Two tables with the same ids in the same order, each id once, and
    the same row for every id, are the same table. *)
Lemma table_ext (t1 t2 : table) :
  map row_id t1 = map row_id t2 ->
  primary_key t1 ->
  (forall i, select_by_id t1 i = select_by_id t2 i) ->
  t1 = t2.
Proof.
  unfold primary_key, select_by_id.
  revert t2; induction t1 as [|r1 t1 IH]; intros [|r2 t2]; simpl;
    try discriminate; [reflexivity|].
  intros [= Hid Hids] Hk Hsel. inversion Hk as [|? ? Hnotin Hk']; subst.
  pose proof (Hsel (row_id r1)) as H1.
  rewrite Z.eqb_refl, <- Hid, Z.eqb_refl in H1. injection H1 as <-.
  f_equal. apply IH; [exact Hids | exact Hk' |].
  intros i. specialize (Hsel i).
  destruct (row_id r1 =? i) eqn:E; [|exact Hsel].
  apply Z.eqb_eq in E. subst i.
  assert (N : forall t, ~ In (row_id r1) (map row_id t) ->
              find (fun r => row_id r =? row_id r1) t = None).
  { intros t Hn. induction t as [|r t IHt]; simpl; [reflexivity|].
    destruct (row_id r =? row_id r1) eqn:E'.
    - apply Z.eqb_eq in E'. simpl in Hn. tauto.
    - apply IHt. simpl in Hn. tauto. }
  rewrite (N t1 Hnotin), (N t2) by (rewrite <- Hids; exact Hnotin).
  reflexivity.
Qed.

(** The ids of the table after a batch do not depend on the timestamp. *)
Lemma ids_upsert_all_timestamp (n1 n2 : pystr) (posts : list post) :
  forall t1 t2,
    map row_id t1 = map row_id t2 ->
    map row_id (upsert_all n1 posts t1) = map row_id (upsert_all n2 posts t2).
Proof.
  induction posts as [|p posts IH]; intros t1 t2 H; simpl; [exact H|].
  apply IH.
  destruct (in_dec Z.eq_dec (post_id p) (map row_id t1)) as [Hin|Hin].
  - rewrite !ids_insert_present; simpl; [exact H | rewrite <- H | ]; exact Hin.
  - rewrite !ids_insert_absent; simpl;
      [rewrite H; reflexivity | rewrite <- H | ]; exact Hin.
Qed.

Lemma coalesce_absorb {A : Type} (a b : option A) :
  coalesce a (coalesce a b) = coalesce a b.
Proof. destruct a; reflexivity. Qed.

(** The batch again, at another time, on the table it left: the same as
    the batch once at that time. *)
Lemma upsert_all_again (n1 n2 : pystr) (posts : list post) (t : table) :
  primary_key t ->
  upsert_all n2 posts (upsert_all n1 posts t) = upsert_all n2 posts t.
Proof.
  intros Hk. apply table_ext.
  - rewrite upsert_all_ids_present.
    + apply ids_upsert_all_timestamp. reflexivity.
    + intros p Hp. apply upsert_all_ids_in, Hp.
  - apply upsert_all_primary_key, upsert_all_primary_key, Hk.
  - intros i. rewrite !select_by_id_row_after. unfold row_after.
    destruct (last_with_id i posts) as [pl|] eqn:E.
    + f_equal. f_equal.
      pose proof (stored_time_posted_upsert_all n1 posts t i) as H.
      rewrite H. apply coalesce_absorb.
    + rewrite select_by_id_row_after. unfold row_after. rewrite E.
      reflexivity.
Qed.

Lemma insert_length (t : table) (x : row) :
  (List.length t <= List.length (insert_on_conflict t x))%nat.
Proof.
  induction t as [|r t IH]; simpl; [lia|].
  destruct (row_id r =? row_id x); simpl; lia.
Qed.

Lemma upsert_all_length (now : pystr) (posts : list post) (t : table) :
  (List.length t <= List.length (upsert_all now posts t))%nat.
Proof.
  revert t; induction posts as [|p posts IH]; intros t; simpl; [lia|].
  etransitivity; [apply (insert_length t (excluded p now)) | apply IH].
Qed.

(** ** Runs of [upsert_posts] *)

(** X1.  A record whose id is not in the table becomes a new row: the
    rows of the table after the run are those it had and one more, which
    holds the values of the record as they are (a null [time_posted]
    stays null) and the timestamp of the run.  Nothing is said of where
    the table keeps the new row. *)
Theorem upsert_new_row (e : env) (p : post) (w : world) :
  transaction (db w) = None ->
  select_by_id (committed (db w)) (post_id p) = None ->
  bindable p = true ->
  storage_fault e (statements w) = false ->
  let r := upsert_posts e [p] w in
  fst r = Ok tt
  /\ Permutation (committed (db (snd r)))
       (excluded p (clock e (ticks w)) :: committed (db w))
  /\ select_by_id (committed (db (snd r))) (post_id p)
     = Some (excluded p (clock e (ticks w))).
Proof.
  intros Ht Hnone Hb Hf r. subst r.
  assert (Hok : batch_ok e (statements w) [p] = true)
    by (simpl; rewrite Hb, Hf; reflexivity).
  destruct (upsert_posts_committed e [p] w Ht Hok) as (Hr & _ & Hc).
  split; [exact Hr|]. rewrite Hc. simpl. split.
  - rewrite insert_absent by exact Hnone.
    symmetry. apply Permutation_cons_append.
  - rewrite select_by_id_insert. simpl.
    rewrite Z.eqb_refl, Hnone. reflexivity.
Qed.

Lemma upsert_new_row_witness :
  let r := upsert_posts (online []) [example_post 2 "b" 3 None]
             (start one_post_db) in
  fst r = Ok tt
  /\ Permutation (committed (db (snd r)))
       [excluded (example_post 2 "b" 3 None) (example_clock 0); stored_post]
  /\ select_by_id (committed (db (snd r))) 2
     = Some (excluded (example_post 2 "b" 3 None) (example_clock 0)).
Proof.
  apply (upsert_new_row (online []) (example_post 2 "b" 3 None)
           (start one_post_db)); reflexivity.
Defined.

(** X2.  Whether [upsert_posts] returns or raises, the row of an id that
    no record of the batch has is what it was. *)
Theorem upsert_posts_other_ids_untouched (e : env) (posts : list post)
  (w : world) (i : Z) :
  transaction (db w) = None ->
  (forall p, In p posts -> post_id p <> i) ->
  select_by_id (committed (db (snd (upsert_posts e posts w)))) i
  = select_by_id (committed (db w)) i.
Proof.
  intros Ht Hi.
  pose proof (upsert_posts_run e posts w) as H. cbv zeta in H.
  destruct H as (_ & _ & H).
  destruct (batch_ok e (statements w) posts).
  - destruct H as [_ Hd]. rewrite Hd. simpl.
    unfold current. rewrite Ht. apply select_by_id_untouched, Hi.
  - destruct H as [_ Hd]. rewrite Hd. reflexivity.
Qed.

Lemma upsert_posts_other_ids_untouched_witness :
  select_by_id
    (committed (db (snd (upsert_posts (online [])
                           [example_post 2 "b" 3 None; example_post 3 "c" 4 None]
                           (start one_post_db))))) 1
  = Some stored_post.
Proof.
  apply (upsert_posts_other_ids_untouched (online [])
           [example_post 2 "b" 3 None; example_post 3 "c" 4 None]
           (start one_post_db) 1).
  - reflexivity.
  - intros p [<-|[<-|[]]]; discriminate.
Defined.

(** X3.  [upsert_posts] deletes no row: every id of the table is still
    in it afterwards, whether the batch is committed or rolled back; and
    after a batch that is committed the ids of the table are those it had
    and those of the batch, nothing else. *)
Theorem upsert_posts_ids (e : env) (posts : list post) (w : world) :
  transaction (db w) = None ->
  let after := committed (db (snd (upsert_posts e posts w))) in
  (forall i, In i (map row_id (committed (db w))) -> In i (map row_id after))
  /\ (List.length (committed (db w)) <= List.length after)%nat
  /\ (batch_ok e (statements w) posts = true ->
      forall i, In i (map row_id after)
                <-> In i (map row_id (committed (db w)))
                    \/ In i (map post_id posts)).
Proof.
  intros Ht after. subst after.
  pose proof (upsert_posts_run e posts w) as H. cbv zeta in H.
  destruct H as (_ & _ & H).
  destruct (batch_ok e (statements w) posts).
  - destruct H as [_ Hd]. rewrite Hd. simpl.
    unfold current. rewrite Ht.
    split; [|split].
    + intros i Hi. apply upsert_all_ids_mono, Hi.
    + apply upsert_all_length.
    + intros _ i. apply ids_upsert_all_iff.
  - destruct H as [_ Hd]. rewrite Hd. simpl.
    split; [auto | split; [lia | discriminate]].
Qed.

Lemma upsert_posts_ids_witness :
  let posts := [example_post 2 "b" 3 None; example_post 1 "new title" 11 None] in
  let after := committed (db (snd (upsert_posts (online []) posts
                                     (start one_post_db)))) in
  (forall i, In i [1] -> In i (map row_id after))
  /\ (1 <= List.length after)%nat
  /\ (true = true ->
      forall i, In i (map row_id after) <-> In i [1] \/ In i [2; 1]).
Proof.
  apply (upsert_posts_ids (online [])
           [example_post 2 "b" 3 None; example_post 1 "new title" 11 None]
           (start one_post_db)).
  reflexivity.
Defined.

(** X4.  [upsert_posts] keeps [id] a key of the table: when no two rows
    share an id before it, none do after it, whether it returns or
    raises, and no transaction is left open. *)
Theorem upsert_posts_primary_key (e : env) (posts : list post) (w : world) :
  transaction (db w) = None ->
  primary_key (committed (db w)) ->
  primary_key (committed (db (snd (upsert_posts e posts w))))
  /\ transaction (db (snd (upsert_posts e posts w))) = None.
Proof.
  intros Ht Hk.
  pose proof (upsert_posts_run e posts w) as H. cbv zeta in H.
  destruct H as (_ & _ & H).
  destruct (batch_ok e (statements w) posts).
  - destruct H as [_ Hd]. rewrite Hd. simpl. split; [|reflexivity].
    unfold current. rewrite Ht. apply upsert_all_primary_key, Hk.
  - destruct H as [_ Hd]. rewrite Hd. simpl. auto.
Qed.

Lemma upsert_posts_primary_key_witness :
  let posts := [example_post 2 "b" 3 None; example_post 1 "new title" 11 None;
                example_post 2 "b again" 4 None] in
  primary_key (committed (db (snd (upsert_posts (online []) posts
                                     (start one_post_db)))))
  /\ transaction (db (snd (upsert_posts (online []) posts
                             (start one_post_db)))) = None.
Proof.
  apply (upsert_posts_primary_key (online [])
           [example_post 2 "b" 3 None; example_post 1 "new title" 11 None;
            example_post 2 "b again" 4 None]
           (start one_post_db)).
  - reflexivity.
  - repeat constructor; simpl; tauto.
Defined.

(** X5.  Running [upsert_posts] again on the same records leaves the
    table a single run at the later time would have left: the second run
    changes nothing but [scraped_at]. *)
Theorem upsert_posts_rerun (e1 e2 : env) (posts : list post) (w : world) :
  transaction (db w) = None ->
  primary_key (committed (db w)) ->
  batch_ok e1 (statements w) posts = true ->
  batch_ok e2 (statements (snd (upsert_posts e1 posts w))) posts = true ->
  let w1 := snd (upsert_posts e1 posts w) in
  let r2 := upsert_posts e2 posts w1 in
  fst r2 = Ok tt
  /\ committed (db (snd r2))
     = upsert_all (clock e2 (ticks w1)) posts (committed (db w)).
Proof.
  intros Ht Hk H1 H2 w1 r2.
  destruct (upsert_posts_committed e1 posts w Ht H1) as (_ & Ht1 & Hc1).
  destruct (upsert_posts_committed e2 posts w1 Ht1 H2) as (Hr2 & _ & Hc2).
  fold r2 in Hr2, Hc2. split; [exact Hr2|].
  rewrite Hc2. subst w1. rewrite Hc1.
  apply upsert_all_again, Hk.
Qed.

Lemma upsert_posts_rerun_witness :
  let posts := [example_post 1 "first" 11 (Some (u "2024-02-02T00:00:00Z"));
                example_post 2 "other" 3 None;
                example_post 1 "second" 12 None] in
  let w1 := snd (upsert_posts (online []) posts (start one_post_db)) in
  let r2 := upsert_posts (online []) posts w1 in
  fst r2 = Ok tt
  /\ committed (db (snd r2)) = upsert_all (example_clock 1) posts [stored_post].
Proof.
  apply (upsert_posts_rerun (online []) (online [])
           [example_post 1 "first" 11 (Some (u "2024-02-02T00:00:00Z"));
            example_post 2 "other" 3 None;
            example_post 1 "second" 12 None]
           (start one_post_db)).
  - reflexivity.
  - repeat constructor; simpl; tauto.
  - reflexivity.
  - reflexivity.
Defined.

(** ** The extractor: errors and the shape of the fields *)

Section ExtractorFurther.
Context {B : Builtins}.

Lemma parse_row_bad_score (row : located) :
  if bad_score row then parse_row row = Raise ValueError
  else exists o, parse_row row = Ok o.
Proof.
  unfold bad_score, parse_row, subtext_fields, score_points, points_of_text.
  destruct (subtext_of (ancestors row) (next_siblings row)) as [td|]; simpl.
  - destruct (select_one span_score td) as [score_el|]; simpl.
    + destruct (is_empty (filter isdigit (get_text false score_el))); simpl.
      * destruct (row_post_id row) as [i|]; [|eauto].
        destruct ((i <=? 0) || is_empty _); eauto.
      * destruct (py_int (filter isdigit (get_text false score_el))); simpl;
          [|reflexivity].
        destruct (row_post_id row) as [i|]; [|eauto].
        destruct ((i <=? 0) || is_empty _); eauto.
    + destruct (row_post_id row) as [i|]; [|eauto].
      destruct ((i <=? 0) || is_empty _); eauto.
  - destruct (row_post_id row) as [i|]; [|eauto].
    destruct ((i <=? 0) || is_empty _); eauto.
Qed.

Lemma parse_rows_closed_form (rows : list located) :
  parse_rows rows =
  if existsb bad_score rows then Raise ValueError
  else Ok (flat_map records_of rows).
Proof.
  induction rows as [|row rows IH]; simpl; [reflexivity|].
  pose proof (parse_row_bad_score row) as H. unfold records_of.
  destruct (bad_score row); simpl.
  - rewrite H. reflexivity.
  - destruct H as [o ->]. simpl. rewrite IH.
    destruct (existsb bad_score rows); simpl; [reflexivity|].
    destruct o; reflexivity.
Qed.

(** X6.  On markup the parser rejects, [parse_posts] raises what the
    parser raises.  On markup it accepts, [parse_posts] raises nothing
    but [ValueError], and it raises exactly when the score text of some
    item row has characters that [str.isdigit] holds of and [int]
    rejects; otherwise it returns the records of the item rows, in
    document order. *)
Theorem parse_posts_closed_form {P : HtmlParser} (html : pystr) :
  parse_posts html =
  match BeautifulSoup html with
  | Raise x => Raise x
  | Ok soup =>
      if existsb bad_score (select tr_athing (document soup))
      then Raise ValueError
      else Ok (flat_map records_of (select tr_athing (document soup)))
  end.
Proof.
  unfold parse_posts, bind.
  destruct (BeautifulSoup html) as [soup|x]; [|reflexivity].
  unfold parse_soup. apply parse_rows_closed_form.
Qed.

(** X7.  The subtext cell of an item row is looked for in the first
    sibling after it that is a [tr], and nowhere else: the nodes before
    that sibling are skipped, and the siblings after it are not looked
    at. *)
Theorem subtext_in_first_tr (row : located) (before : list node) (sib : node)
  (rest : list node) :
  next_siblings row = before ++ sib :: rest ->
  (forall n, In n before -> is_tr n = false) ->
  is_tr sib = true ->
  subtext_of (ancestors row) (next_siblings row)
  = select_one td_subtext
      {| ancestors := ancestors row; here := sib; next_siblings := rest |}.
Proof.
  intros -> Hbefore Hsib.
  induction before as [|n before IH]; simpl.
  - destruct sib as [k s|h cs]; [discriminate|].
    simpl in Hsib. rewrite Hsib. reflexivity.
  - assert (Hn : is_tr n = false) by (apply Hbefore; left; reflexivity).
    assert (Hrest : forall m, In m before -> is_tr m = false)
      by (intros m Hm; apply Hbefore; right; exact Hm).
    destruct n as [k s|h cs]; [exact (IH Hrest)|].
    simpl in Hn. rewrite Hn. exact (IH Hrest).
Qed.

(** X8.  No record has a url that begins with [item?id=]: such a link
    target has been made absolute, and the origin put before it does not
    begin that way. *)
Theorem url_never_relative (row : located) (p : post) :
  parse_row row = Ok (Some p) ->
  startswith (u "item?id=") (post_url p) = false.
Proof.
  intros H. apply parse_row_some in H.
  destruct H as (_ & _ & _ & _ & ->).
  unfold anchor_url.
  match goal with
  | |- context [if startswith _ ?l then _ else _] =>
      destruct (startswith (u "item?id=") l) eqn:E
  end; [reflexivity | exact E].
Qed.

Lemma lstrip_head (s : pystr) (c : N) (rest : pystr) :
  lstrip s = c :: rest -> isspace c = false.
Proof.
  induction s as [|x s IH]; simpl; [discriminate|].
  destruct (isspace x) eqn:E; [exact IH|].
  intros [= <- _]. exact E.
Qed.

Lemma lstrip_suffix (s : pystr) : exists spaces, s = spaces ++ lstrip s.
Proof.
  induction s as [|x s [spaces IH]]; simpl; [exists []; reflexivity|].
  destruct (isspace x).
  - exists (x :: spaces). simpl. f_equal. exact IH.
  - exists []. reflexivity.
Qed.

Lemma last_default {A : Type} (l : list A) (d d' : A) :
  l <> [] -> last l d = last l d'.
Proof.
  induction l as [|x l IH]; [congruence|]. intros _.
  destruct l as [|y l]; [reflexivity|].
  change (last (y :: l) d = last (y :: l) d'). apply IH. discriminate.
Qed.

Lemma last_app_nonempty {A : Type} (l q : list A) (d : A) :
  q <> [] -> last (l ++ q) d = last q d.
Proof.
  intros Hq. induction l as [|x l IH]; [reflexivity|].
  simpl. destruct (l ++ q) eqn:E; [|exact IH].
  apply app_eq_nil in E. destruct E as [_ E]. contradiction.
Qed.

(** What [strip] returns, when it is not empty, is trimmed. *)
Lemma strip_trimmed (s : pystr) : strip s <> [] -> trimmed (strip s).
Proof.
  unfold strip, trimmed.
  set (a := lstrip s). set (b := lstrip (rev a)).
  intros Hne.
  destruct b as [|x b'] eqn:Eb; [simpl in Hne; congruence|].
  assert (Hx : isspace x = false) by (apply (lstrip_head (rev a) x b'), Eb).
  destruct (lstrip_suffix (rev a)) as [spaces Hsuf]. fold b in Hsuf.
  destruct (exists_last (l := x :: b') ltac:(discriminate)) as (b0 & y & Hb).
  rewrite Eb, Hb in Hsuf.
  assert (Ha : a = y :: rev (spaces ++ b0)).
  { rewrite <- (rev_involutive a), Hsuf, app_assoc, rev_app_distr.
    reflexivity. }
  assert (Hy : isspace y = false)
    by (apply (lstrip_head s y (rev (spaces ++ b0))), Ha).
  rewrite Hb, rev_app_distr. simpl.
  exists y, (rev b0). split; [reflexivity|]. split; [exact Hy|].
  change (isspace (last (y :: rev b0) y) = false).
  assert (E : y :: rev b0 = rev b' ++ [x])
    by (rewrite <- rev_unit, <- Hb; reflexivity).
  rewrite E, last_last. exact Hx.
Qed.

Lemma concat_trimmed (pieces : list pystr) :
  Forall trimmed pieces -> pieces <> [] -> trimmed (List.concat pieces).
Proof.
  induction pieces as [|p pieces IH]; [congruence|].
  intros Hall _. inversion Hall as [|? ? Hp Hrest]; subst.
  destruct pieces as [|q pieces].
  - simpl. rewrite app_nil_r. exact Hp.
  - specialize (IH Hrest ltac:(discriminate)).
    destruct Hp as (c & m & -> & Hc & _).
    destruct IH as (c' & m' & E & _ & Hlast).
    change (List.concat ((c :: m) :: q :: pieces))
      with ((c :: m) ++ List.concat (q :: pieces)).
    exists c, (m ++ List.concat (q :: pieces)).
    split; [reflexivity|]. split; [exact Hc|].
    rewrite last_app_nonempty by (rewrite E; discriminate).
    rewrite (last_default _ c c') by (rewrite E; discriminate).
    exact Hlast.
Qed.

Lemma get_text_strip_trimmed (l : located) :
  get_text true l <> [] -> trimmed (get_text true l).
Proof.
  unfold get_text. intros Hne.
  apply concat_trimmed.
  - unfold all_strings. apply Forall_flat_map, Forall_forall.
    intros d _. destruct (here d) as [k s|h cs]; [|constructor].
    destruct (interesting k); [|constructor].
    destruct (is_empty (strip s)) eqn:E; constructor; [|constructor].
    apply strip_trimmed. intros E'. rewrite E' in E. discriminate.
  - intros E. rewrite E in Hne. simpl in Hne. congruence.
Qed.

(** X9.  The title of a record is trimmed: it neither begins nor ends
    with white space. *)
Theorem title_trimmed (row : located) (p : post) :
  parse_row row = Ok (Some p) -> trimmed (post_title p).
Proof.
  intros H. apply parse_row_some in H.
  destruct H as (_ & _ & Htitle & Hne & _).
  rewrite Htitle in *. unfold anchor_title in *.
  destruct (row_anchor row) as [a|]; [|congruence].
  apply get_text_strip_trimmed, Hne.
Qed.

End ExtractorFurther.

Lemma subtext_in_first_tr_witness :
  subtext_of (ancestors (first_row late_subtext_page))
    (next_siblings (first_row late_subtext_page)) = None
  /\ parse_row (B := Latin1.builtins) (first_row late_subtext_page)
     = Ok (Some {| post_id := 42;
                   post_title := u "Late";
                   post_url := u "https://example.com/";
                   post_user := None;
                   post_points := 0;
                   post_time_posted := None |}).
Proof.
  split; [|reflexivity].
  apply (subtext_in_first_tr (first_row late_subtext_page)
           [NavigableString PlainString (u " ")]
           (Tag {| name := u "tr"; class_ := [u "spacer"]; attrs := [] |} [])
           [subtext_row (u "7 points") "carol" "2024-03-03T00:00:00Z"]).
  - reflexivity.
  - intros n [<-|[]]. reflexivity.
  - reflexivity.
Defined.

Lemma url_never_relative_witness :
  startswith (u "item?id=") (u "https://news.ycombinator.com/item?id=42")
  = false.
Proof.
  apply (url_never_relative (B := Latin1.builtins) (first_row bare_page)
           {| post_id := 42;
              post_title := u "Bare";
              post_url := u "https://news.ycombinator.com/item?id=42";
              post_user := None;
              post_points := 0;
              post_time_posted := None |}).
  reflexivity.
Defined.

Lemma title_trimmed_witness :
  trimmed (B := Latin1.builtins) (u "Example").
Proof.
  apply (title_trimmed (B := Latin1.builtins) (first_row example_page)
           {| post_id := 123;
              post_title := u "Example";
              post_url := u "https://news.ycombinator.com/item?id=123";
              post_user := Some (u "alice");
              post_points := 456;
              post_time_posted := Some (u "2024-01-01T00:00:00Z") |}).
  reflexivity.
Defined.

(** ** The points under CPython's builtins *)

Lemma digits_value_nonneg (s : pystr) :
  forall acc after_digit z,
    0 <= acc ->
    Latin1.digits_value acc after_digit s = Some z ->
    0 <= z.
Proof.
  induction s as [|c s IH]; intros acc after_digit z Hacc;
    cbn [Latin1.digits_value].
  - destruct after_digit; [intros [= <-]; exact Hacc | discriminate].
  - destruct (Latin1.between 48 57 c) eqn:Hc.
    + apply IH. unfold Latin1.between in Hc.
      apply andb_true_iff in Hc. destruct Hc as [Hlo _].
      apply N.leb_le in Hlo. lia.
    + destruct (N.eqb c 95 && after_digit); [|discriminate].
      apply IH. exact Hacc.
Qed.

Lemma digit_not_space_or_sign (c : N) :
  Latin1.digit c = true ->
  Latin1.int_space c = false /\ N.eqb c 43 = false /\ N.eqb c 45 = false.
Proof.
  unfold Latin1.digit, Latin1.int_space, Latin1.between. intros H.
  assert (Hc : (48 <= c <= 57 \/ c = 178 \/ c = 179 \/ c = 185)%N).
  { destruct (N.leb_spec 48 c), (N.leb_spec c 57), (N.eqb_spec c 178),
      (N.eqb_spec c 179), (N.eqb_spec c 185);
      simpl in H; try discriminate; lia. }
  clear H. repeat split.
  - destruct (N.leb_spec 9 c), (N.leb_spec c 13), (N.eqb_spec c 32),
      (N.eqb_spec c 133), (N.eqb_spec c 160); simpl; try reflexivity; lia.
  - apply N.eqb_neq. lia.
  - apply N.eqb_neq. lia.
Qed.

(** [int] on a string of characters [str.isdigit] holds of returns no
    negative integer. *)
Lemma int_digits_nonneg (ds : pystr) (z : Z) :
  forallb Latin1.digit ds = true ->
  Latin1.int ds = Some z ->
  0 <= z.
Proof.
  intros Hall. unfold Latin1.int.
  assert (Hskip : forall l, forallb Latin1.digit l = true ->
                            Latin1.skip_spaces l = l).
  { intros [|c l] Hl; [reflexivity|]. simpl in *.
    apply andb_true_iff in Hl. destruct Hl as [Hc _].
    destruct (digit_not_space_or_sign c Hc) as (-> & _). reflexivity. }
  rewrite (Hskip ds Hall).
  assert (Hrev : forallb Latin1.digit (rev ds) = true).
  { rewrite forallb_forall in *. intros x Hx. apply Hall, in_rev, Hx. }
  rewrite (Hskip (rev ds) Hrev), rev_involutive.
  destruct ds as [|c ds]; [discriminate|].
  simpl in Hall. apply andb_true_iff in Hall. destruct Hall as [Hc _].
  destruct (digit_not_space_or_sign c Hc) as (_ & -> & ->).
  apply digits_value_nonneg. lia.
Qed.

(** X10.  Under CPython's builtins, on Latin-1 text, the points of a
    record are never negative. *)
Theorem points_never_negative (row : located) (p : post) :
  parse_row (B := Latin1.builtins) row = Ok (Some p) ->
  0 <= post_points p.
Proof.
  unfold parse_row, bind, subtext_fields, score_points, points_of_text.
  destruct (subtext_of (ancestors row) (next_siblings row)) as [td|]; simpl.
  - destruct (select_one span_score td) as [score_el|]; simpl.
    + set (ds := filter Latin1.digit (get_text false score_el)).
      assert (Hds : forallb Latin1.digit ds = true).
      { apply forallb_forall. intros x Hx. apply filter_In in Hx. tauto. }
      destruct (is_empty ds); simpl.
      * destruct (row_post_id row) as [i|]; [|discriminate].
        destruct ((i <=? 0) || is_empty _); [discriminate|].
        intros [= <-]. simpl. lia.
      * destruct (Latin1.int ds) as [z|] eqn:E; simpl; [|discriminate].
        destruct (row_post_id row) as [i|]; [|discriminate].
        destruct ((i <=? 0) || is_empty _); [discriminate|].
        intros [= <-]. simpl. apply (int_digits_nonneg ds z Hds E).
    + destruct (row_post_id row) as [i|]; [|discriminate].
      destruct ((i <=? 0) || is_empty _); [discriminate|].
      intros [= <-]. simpl. lia.
  - destruct (row_post_id row) as [i|]; [|discriminate].
    destruct ((i <=? 0) || is_empty _); [discriminate|].
    intros [= <-]. simpl. lia.
Qed.

Lemma points_never_negative_witness : 0 <= 456.
Proof.
  apply (points_never_negative (first_row example_page)
           {| post_id := 123;
              post_title := u "Example";
              post_url := u "https://news.ycombinator.com/item?id=123";
              post_user := Some (u "alice");
              post_points := 456;
              post_time_posted := Some (u "2024-01-01T00:00:00Z") |}).
  reflexivity.
Defined.

(** ** The run, case by case *)

Lemma batch_ok_first_failure (e : env) (posts : list post) :
  forall k, batch_ok e k posts = is_none (first_failure e k posts).
Proof.
  induction posts as [|p posts IH]; intros k; simpl; [reflexivity|].
  destruct (bindable p); simpl; [|reflexivity].
  destruct (storage_fault e k); simpl; [reflexivity|]. apply IH.
Qed.

(** The loop of line 146 writes nothing to the standard streams, and
    raises the exception of the first statement that fails. *)
Lemma for_each_execute_streams (e : env) (now : pystr) (posts : list post) :
  forall w,
    let r := for_each posts (fun row => execute e row now) w in
    stdout (snd r) = stdout w
    /\ stderr (snd r) = stderr w
    /\ fst r = match first_failure e (statements w) posts with
               | Some x => Raise x
               | None => Ok tt
               end.
Proof.
  induction posts as [|p posts IH]; intros w; simpl.
  - repeat split; reflexivity.
  - unfold mbind, execute.
    destruct (bindable p); simpl.
    + destruct (storage_fault e (statements w)); simpl.
      * repeat split; reflexivity.
      * match goal with
        | |- context [for_each posts _ ?w1] => specialize (IH w1)
        end.
        simpl in IH. exact IH.
    + repeat split; reflexivity.
Qed.

Lemma upsert_posts_streams (e : env) (posts : list post) (w : world) :
  let r := upsert_posts e posts w in
  stdout (snd r) = stdout w
  /\ stderr (snd r) = stderr w
  /\ fst r = match first_failure e (statements w) posts with
             | Some x => Raise x
             | None => Ok tt
             end.
Proof.
  unfold upsert_posts, mbind, datetime_now, with_conn. simpl.
  match goal with
  | |- context [for_each posts ?f ?w1] =>
      pose proof (for_each_execute_streams e (clock e (ticks w)) posts w1) as H;
      simpl in H; destruct (for_each posts f w1) as [[a|x] w2]
  end; simpl in *; exact H.
Qed.

Lemma get_html_run (e : env) (w : world) :
  let r := get_html e w in
  fst r = match markup e with
          | Some html => Ok html
          | None => Raise OSError
          end
  /\ conn (snd r) = conn w
  /\ db (snd r) = db w
  /\ ticks (snd r) = ticks w
  /\ statements (snd r) = statements w
  /\ stdout (snd r) = stdout w
  /\ stderr (snd r) = stderr w ++ fetch_diagnostic e.
Proof.
  unfold get_html, try_except, lift, markup, fetch_diagnostic.
  destruct (fetch e) as [response|x]; simpl.
  - rewrite app_nil_r. repeat split; reflexivity.
  - unfold mbind, stderr_write, modify. simpl.
    destruct (dummy_html e); simpl; repeat split; reflexivity.
Qed.

Section MainFurther.
Context {B : Builtins} {P : HtmlParser}.

(** The run in closed form: its exit status and the world it leaves,
    for each way it can go. *)
Lemma main_run (e : env) (w : world) :
  let r := main e w in
  match markup e with
  | None =>
      fst r = Ok 1
      /\ conn (snd r) = Open
      /\ db (snd r) = commit (db w)
      /\ stdout (snd r) = stdout w
      /\ stderr (snd r)
         = stderr w ++ fetch_diagnostic e ++ [ScrapeFailed OSError]
  | Some html =>
      match parse_posts html with
      | Raise x =>
          fst r = Ok 1
          /\ conn (snd r) = Open
          /\ db (snd r) = commit (db w)
          /\ stdout (snd r) = stdout w
          /\ stderr (snd r)
             = stderr w ++ fetch_diagnostic e ++ [ScrapeFailed x]
      | Ok posts =>
          match first_failure e (statements w) posts with
          | Some x =>
              fst r = Ok 1
              /\ conn (snd r) = Open
              /\ db (snd r) = commit (db w)
              /\ stdout (snd r) = stdout w
              /\ stderr (snd r)
                 = stderr w ++ fetch_diagnostic e ++ no_posts_warning posts
                   ++ [ScrapeFailed x]
          | None =>
              fst r = Ok 0
              /\ conn (snd r) = Closed
              /\ db (snd r)
                 = {| committed :=
                        upsert_all (clock e (ticks w)) posts (current (db w));
                      transaction := None |}
              /\ stdout (snd r)
                 = stdout w
                   ++ [Upserted (List.length posts) (clock e (S (ticks w)))]
              /\ stderr (snd r)
                 = stderr w ++ fetch_diagnostic e ++ no_posts_warning posts
          end
      end
  end.
Proof.
  unfold main, try_except, mbind, connect, ensure_db, modify, lift. simpl.
  match goal with
  | |- context [get_html e ?w1] =>
      pose proof (get_html_run e w1) as Hg; cbv zeta in Hg;
      destruct (get_html e w1) as [rh w2]
  end.
  simpl in Hg. destruct Hg as (Hfst & Hconn & Hdb & Hticks & Hst & Hout & Herr).
  destruct (markup e) as [html|]; subst rh; simpl.
  2:{ rewrite Hconn, Hdb, Hout, Herr, <- app_assoc. repeat split. }
  destruct (parse_posts html) as [posts|x]; simpl.
  2:{ rewrite Hconn, Hdb, Hout, Herr, <- app_assoc. repeat split. }
  assert (Hw : exists w3,
             (if is_nil posts then stderr_write NoPostsParsed else ret tt) w2
             = (Ok tt, w3)
             /\ conn w3 = Open /\ db w3 = commit (db w)
             /\ ticks w3 = ticks w /\ statements w3 = statements w
             /\ stdout w3 = stdout w
             /\ stderr w3
                = stderr w ++ fetch_diagnostic e ++ no_posts_warning posts).
  { unfold no_posts_warning.
    destruct (is_nil posts); eexists; (split; [reflexivity|]); simpl;
      rewrite ?Herr, ?app_nil_r, <- ?app_assoc; repeat split; assumption. }
  destruct Hw as (w3 & -> & Hc3 & Hd3 & Ht3 & Hs3 & Ho3 & He3).
  pose proof (upsert_posts_run e posts w3) as Hu. cbv zeta in Hu.
  pose proof (upsert_posts_streams e posts w3) as Hv. cbv zeta in Hv.
  rewrite batch_ok_first_failure, Hs3, Ht3, Hd3 in Hu. rewrite Hs3 in Hv.
  destruct Hu as (Hticks5 & Hconn5 & Hu). destruct Hv as (Hout5 & Herr5 & Hfst5).
  destruct (upsert_posts e posts w3) as [r5 w5]. simpl in *.
  destruct (first_failure e (statements w) posts) as [x|]; simpl in *;
    subst r5; simpl.
  - destruct Hu as [_ Hd5].
    rewrite Hconn5, Hc3, Hd5, Hout5, Ho3, Herr5, He3, <- !app_assoc.
    repeat split.
  - destruct Hu as [_ Hd5].
    rewrite Hd5, Hout5, Ho3, Herr5, He3, Hticks5. repeat split.
Qed.

Lemma first_failure_env (e e' : env) (posts : list post) :
  (forall k, storage_fault e k = storage_fault e' k) ->
  forall k, first_failure e k posts = first_failure e' k posts.
Proof.
  intros H. induction posts as [|p posts IH]; intros k; simpl; [reflexivity|].
  rewrite H, IH. reflexivity.
Qed.

(** X11.  A run returns 0 only when there was markup to work on (the
    response, or the snapshot), [parse_posts] returned on it and no
    statement of the batch failed; the records are then committed and the
    connection is closed. *)
Theorem main_exit_zero_only_if (e : env) (w : world) :
  fst (main e w) = Ok 0 ->
  exists html posts,
    markup e = Some html
    /\ parse_posts html = Ok posts
    /\ batch_ok e (statements w) posts = true
    /\ committed (db (snd (main e w)))
       = upsert_all (clock e (ticks w)) posts (current (db w))
    /\ conn (snd (main e w)) = Closed.
Proof.
  pose proof (main_run e w) as H. cbv zeta in H.
  destruct (markup e) as [html|].
  - destruct (parse_posts html) as [posts|x] eqn:Hp.
    + destruct (first_failure e (statements w) posts) as [x|] eqn:Hf.
      * destruct H as (-> & _). discriminate.
      * destruct H as (_ & -> & -> & _). intros _.
        exists html, posts. rewrite batch_ok_first_failure, Hf. auto.
    + destruct H as (-> & _). discriminate.
  - destruct H as (-> & _). discriminate.
Qed.

(** X12.  A run that succeeds commits the records of the markup, in
    order, on the table as the connection found it, with the first
    reading of the clock as [scraped_at]; it prints one line with their
    number and the second reading of the clock, and closes the
    connection. *)
Theorem main_success (e : env) (w : world) (html : pystr) (posts : list post) :
  markup e = Some html ->
  parse_posts html = Ok posts ->
  batch_ok e (statements w) posts = true ->
  let r := main e w in
  fst r = Ok 0
  /\ conn (snd r) = Closed
  /\ db (snd r)
     = {| committed := upsert_all (clock e (ticks w)) posts (current (db w));
          transaction := None |}
  /\ stdout (snd r)
     = stdout w ++ [Upserted (List.length posts) (clock e (S (ticks w)))]
  /\ stderr (snd r) = stderr w ++ fetch_diagnostic e ++ no_posts_warning posts.
Proof.
  intros Hm Hp Hok.
  pose proof (main_run e w) as H. cbv zeta in H.
  rewrite Hm, Hp in H. rewrite batch_ok_first_failure in Hok.
  destruct (first_failure e (statements w) posts); [discriminate|].
  exact H.
Qed.

(** X13.  When there is no markup, or [parse_posts] raises, or a
    statement of the batch fails, the run returns 1 and has written
    nothing: the table is as the connection found it, nothing is printed
    to standard output, and the last line on standard error is the
    failure. *)
Theorem main_failure_no_write (e : env) (w : world) :
  fails_before_commit e w = true ->
  fst (main e w) = Ok 1
  /\ committed (db (snd (main e w))) = current (db w)
  /\ transaction (db (snd (main e w))) = None
  /\ stdout (snd (main e w)) = stdout w
  /\ exists lines x,
       stderr (snd (main e w)) = stderr w ++ lines ++ [ScrapeFailed x].
Proof.
  unfold fails_before_commit.
  pose proof (main_run e w) as H. cbv zeta in H.
  destruct (markup e) as [html|].
  - destruct (parse_posts html) as [posts|x].
    + rewrite batch_ok_first_failure.
      destruct (first_failure e (statements w) posts) as [x|];
        [|discriminate].
      destruct H as (-> & _ & -> & -> & ->). intros _.
      repeat split.
      exists (fetch_diagnostic e ++ no_posts_warning posts), x.
      rewrite <- !app_assoc. reflexivity.
    + destruct H as (-> & _ & -> & -> & ->). intros _. repeat split. eauto.
  - destruct H as (-> & _ & -> & -> & ->). intros _. repeat split. eauto.
Qed.

(** X14.  When the request fails and there is a snapshot, the run is
    the run on a response with the content of the snapshot: the same exit
    status, table, connection and standard output, and on standard error
    one more line, the failure of the request, before the others. *)
Theorem main_fallback (e : env) (w : world) (x : exn) (snapshot : pystr) :
  fetch e = Raise x ->
  dummy_html e = Some snapshot ->
  let r := main e w in
  let r' := main (with_response e snapshot) w in
  fst r = fst r'
  /\ conn (snd r) = conn (snd r')
  /\ db (snd r) = db (snd r')
  /\ stdout (snd r) = stdout (snd r')
  /\ exists lines,
       stderr (snd r') = stderr w ++ lines
       /\ stderr (snd r) = stderr w ++ FetchFailed x :: lines.
Proof.
  intros Hf Hd. cbv zeta.
  pose proof (main_run e w) as H. cbv zeta in H.
  pose proof (main_run (with_response e snapshot) w) as H'. cbv zeta in H'.
  unfold markup, fetch_diagnostic in H, H'. simpl in H'.
  rewrite Hf, Hd in H.
  destruct (parse_posts snapshot) as [posts|y].
  - rewrite <- (first_failure_env e (with_response e snapshot))
      in H' by reflexivity.
    destruct (first_failure e (statements w) posts) as [y|];
      destruct H as (-> & -> & -> & -> & ->);
      destruct H' as (-> & -> & -> & -> & ->);
      repeat split; eexists; split; reflexivity.
  - destruct H as (-> & -> & -> & -> & ->).
    destruct H' as (-> & -> & -> & -> & ->).
    repeat split; eexists; split; reflexivity.
Qed.

(** X15.  Markup without a record is no failure: the run returns 0,
    leaves the table as the connection found it, warns on standard error
    and prints a count of 0. *)
Theorem main_no_posts (e : env) (w : world) (html : pystr) :
  markup e = Some html ->
  parse_posts html = Ok [] ->
  let r := main e w in
  fst r = Ok 0
  /\ db (snd r) = commit (db w)
  /\ stdout (snd r) = stdout w ++ [Upserted 0 (clock e (S (ticks w)))]
  /\ stderr (snd r) = stderr w ++ fetch_diagnostic e ++ [NoPostsParsed].
Proof.
  intros Hm Hp. cbv zeta.
  pose proof (main_run e w) as H. cbv zeta in H.
  rewrite Hm, Hp in H. simpl in H.
  destruct H as (-> & _ & -> & -> & ->). repeat split.
Qed.

End MainFurther.

Lemma main_success_witness :
  let r := main (B := Latin1.builtins) (P := example_parser)
             (online []) (start one_post_db) in
  fst r = Ok 0
  /\ conn (snd r) = Closed
  /\ db (snd r)
     = {| committed := [stored_post; excluded example_record (example_clock 0)];
          transaction := None |}
  /\ stdout (snd r) = [Upserted 1 (example_clock 1)]
  /\ stderr (snd r) = [].
Proof.
  apply (main_success (B := Latin1.builtins) (P := example_parser)
           (online []) (start one_post_db) [] [example_record]);
    reflexivity.
Defined.

Lemma main_failure_no_write_witness :
  let r := main (B := Latin1.builtins) (P := huge_id_parser)
             (online []) (start one_post_db) in
  fst r = Ok 1
  /\ committed (db (snd r)) = [stored_post]
  /\ transaction (db (snd r)) = None
  /\ stdout (snd r) = []
  /\ exists lines x, stderr (snd r) = [] ++ lines ++ [ScrapeFailed x].
Proof.
  apply (main_failure_no_write (B := Latin1.builtins) (P := huge_id_parser)
           (online []) (start one_post_db)).
  reflexivity.
Defined.

Lemma main_exit_zero_only_if_witness :
  exists html posts,
    markup (online []) = Some html
    /\ parse_posts (B := Latin1.builtins) (P := example_parser) html
       = Ok posts
    /\ batch_ok (online []) 0 posts = true
    /\ committed (db (snd (main (B := Latin1.builtins) (P := example_parser)
                             (online []) (start one_post_db))))
       = upsert_all (example_clock 0) posts [stored_post]
    /\ conn (snd (main (B := Latin1.builtins) (P := example_parser)
                    (online []) (start one_post_db))) = Closed.
Proof.
  apply (main_exit_zero_only_if (B := Latin1.builtins) (P := example_parser)
           (online []) (start one_post_db)).
  reflexivity.
Defined.

Lemma main_fallback_witness :
  let r := main (B := Latin1.builtins) (P := example_parser)
             (offline_snapshot []) (start one_post_db) in
  let r' := main (B := Latin1.builtins) (P := example_parser)
              (with_response (offline_snapshot []) []) (start one_post_db) in
  fst r = fst r'
  /\ conn (snd r) = conn (snd r')
  /\ db (snd r) = db (snd r')
  /\ stdout (snd r) = stdout (snd r')
  /\ exists lines,
       stderr (snd r') = [] ++ lines
       /\ stderr (snd r) = [] ++ FetchFailed RequestException :: lines.
Proof.
  apply (main_fallback (B := Latin1.builtins) (P := example_parser)
           (offline_snapshot []) (start one_post_db) RequestException []);
    reflexivity.
Defined.

Lemma main_no_posts_witness :
  let r := main (B := Latin1.builtins) (P := no_rows_parser)
             (online []) (start one_post_db) in
  fst r = Ok 0
  /\ db (snd r) = one_post_db
  /\ stdout (snd r) = [Upserted 0 (example_clock 1)]
  /\ stderr (snd r) = [NoPostsParsed].
Proof.
  apply (main_no_posts (B := Latin1.builtins) (P := no_rows_parser)
           (online []) (start one_post_db) []); reflexivity.
Defined.

(** ** Integers the store cannot hold *)

Lemma first_failure_unbindable (e : env) (posts : list post) :
  forall k,
    existsb (fun p => negb (bindable p)) posts = true ->
    first_failure e k posts <> None.
Proof.
  induction posts as [|p posts IH]; intros k; simpl; [discriminate|].
  destruct (bindable p); simpl; [|discriminate].
  destruct (storage_fault e k); [discriminate|]. apply IH.
Qed.

Section Overflow.
Context {B : Builtins} {P : HtmlParser}.

(** X16.  When the id or the points of one record of the page do not
    fit a 64-bit integer, the run fails and no record of the page is
    stored, the others no more than that one. *)
Theorem main_overflow (e : env) (w : world) (html : pystr) (posts : list post) :
  markup e = Some html ->
  parse_posts html = Ok posts ->
  existsb (fun p => negb (bindable p)) posts = true ->
  fst (main e w) = Ok 1
  /\ committed (db (snd (main e w))) = current (db w).
Proof.
  intros Hm Hp Hex.
  pose proof (main_run e w) as H. cbv zeta in H.
  rewrite Hm, Hp in H.
  pose proof (first_failure_unbindable e posts (statements w) Hex) as Hf.
  destruct (first_failure e (statements w) posts); [|congruence].
  destruct H as (-> & _ & -> & _). auto.
Qed.

End Overflow.

Lemma main_overflow_witness :
  fst (main (B := Latin1.builtins) (P := huge_id_parser)
         (online []) (start one_post_db)) = Ok 1
  /\ committed (db (snd (main (B := Latin1.builtins) (P := huge_id_parser)
                           (online []) (start one_post_db))))
     = [stored_post].
Proof.
  apply (main_overflow (B := Latin1.builtins) (P := huge_id_parser)
           (online []) (start one_post_db) []
           [example_record;
            {| post_id := 2 ^ 63;
               post_title := u "Huge";
               post_url := u "https://example.com/";
               post_user := Some (u "bob");
               post_points := 1;
               post_time_posted := Some (u "2024-01-02T00:00:00Z") |}]);
    reflexivity.
Defined.
